(** * alx-polly: poll actions and security utilities

    A shallow embedding of [app/lib/utils/security.ts] and
    [app/lib/actions/poll-actions.ts], and the properties of the
    validation, sanitization and authorization layer proved about it.

    Layout: the JavaScript string and regular-expression primitives the
    two files use, then [SecurityUtils], then the poll actions over an
    explicit model of the backend collaborator, then the theorems. *)

From Stdlib Require Import List NArith ZArith Bool String Ascii Lia.
From stdpp Require Import gmap.
Import ListNotations.

Local Open Scope N_scope.

(** ** JavaScript strings *)

(** A JavaScript string is a sequence of UTF-16 code units.  A code unit
    is kept as an [N]; real strings only hold values below 65536, and
    nothing below depends on that bound. *)
Definition jsstring := list N.

(** A source string literal (ASCII) as a [jsstring]. *)
Definition js (s : string) : jsstring :=
  List.map N_of_ascii (list_ascii_of_string s).

(** A source character literal. *)
Definition ch (s : string) : N :=
  match s with
  | String a _ => N_of_ascii a
  | EmptyString => 0
  end.

Definition between (lo hi c : N) : bool := (lo <=? c) && (c <=? hi).

(** ECMAScript WhiteSpace and LineTerminator code units: the set that
    [String.prototype.trim] strips and that [\s] matches. *)
Definition is_space (c : N) : bool :=
  between 9 13 c                    (* TAB LF VT FF CR *)
  || (c =? 32) || (c =? 160)        (* SP, NBSP *)
  || (c =? 5760)                    (* U+1680 *)
  || between 8192 8202 c            (* U+2000 .. U+200A *)
  || (c =? 8232) || (c =? 8233)     (* LS, PS *)
  || (c =? 8239) || (c =? 8287)     (* U+202F, U+205F *)
  || (c =? 12288) || (c =? 65279).  (* U+3000, U+FEFF *)

(** [\w]: ASCII letters, digits and the underscore. *)
Definition is_word (c : N) : bool :=
  between 97 122 c || between 65 90 c || between 48 57 c || (c =? 95).

Fixpoint trimStart (s : jsstring) : jsstring :=
  match s with
  | c :: t => if is_space c then trimStart t else s
  | [] => []
  end.

Definition trimEnd (s : jsstring) : jsstring := rev (trimStart (rev s)).

(** [s.trim()] *)
Definition trim (s : jsstring) : jsstring := trimEnd (trimStart s).

(** [s.length], as the integer the source compares with. *)
Definition jslength {A} (l : list A) : Z := Z.of_nat (List.length l).

(** Truthiness of a string ([Boolean(s)], [!s]): non-empty. *)
Definition truthy (s : jsstring) : bool :=
  match s with [] => false | _ :: _ => true end.

Fixpoint jsstring_eqb (a b : jsstring) : bool :=
  match a, b with
  | [], [] => true
  | x :: a', y :: b' => (x =? y) && jsstring_eqb a' b'
  | _, _ => false
  end.

(** [self.indexOf(x)]: the first index holding [x], or -1. *)
Fixpoint indexOf (self : list jsstring) (x : jsstring) : Z :=
  match self with
  | [] => (-1)%Z
  | y :: t =>
      if jsstring_eqb y x then 0%Z
      else let i := indexOf t x in
           if (i <? 0)%Z then (-1)%Z else (i + 1)%Z
  end.

(** [self.filter((x, index, self) => f x index self)] *)
Fixpoint filter_from {A} (f : A -> Z -> list A -> bool)
    (self : list A) (index : Z) (l : list A) : list A :=
  match l with
  | [] => []
  | x :: t =>
      if f x index self then x :: filter_from f self (index + 1)%Z t
      else filter_from f self (index + 1)%Z t
  end.

Definition filter_indexed {A} (f : A -> Z -> list A -> bool)
    (self : list A) : list A :=
  filter_from f self 0%Z self.

(** ** Regular expressions

    The fragment of ECMAScript regular expressions that occurs in the two
    source files, with the backtracking semantics of the language
    specification (greedy quantifiers, first match wins).  All patterns in
    the source are written without the [u] flag, so matching is by code
    unit. *)
Module RegExp.

(** Members of a character class. *)
Inductive class_item : Type :=
| CChar (c : N)            (* a single character *)
| CRange (lo hi : N)       (* [lo-hi] *)
| CSpace                   (* [\s] *)
| CWord.                   (* [\w] *)

Inductive regex : Type :=
| Eps
| Char (c : N)                               (* a literal character *)
| Class (negated : bool) (items : list class_item)
| Seq (r1 r2 : regex)
| Star (r : regex)                           (* greedy [r*] *)
| NotAhead (r : regex)                       (* [(?!r)] *)
| WordBoundary                               (* [\b] *)
| Bol                                        (* [^] *)
| Eol.                                       (* [$] *)

(** [r+] *)
Definition Plus (r : regex) : regex := Seq r (Star r).

Fixpoint seq (rs : list regex) : regex :=
  match rs with
  | [] => Eps
  | [r] => r
  | r :: rs' => Seq r (seq rs')
  end.

(** A literal run of characters. *)
Definition lit (s : string) : regex := seq (List.map Char (js s)).

(** Canonicalize of the specification for the [i] flag without [u]:
    upper-casing, where a character outside ASCII never folds to an ASCII
    one.  Every pattern character in the source is ASCII, so only the
    ASCII part of the folding can decide a comparison and that part is
    what is kept here. *)
Definition canonicalize (c : N) : N :=
  if between 97 122 c then c - 32 else c.

Definition char_eq (ignoreCase : bool) (a c : N) : bool :=
  if ignoreCase then canonicalize a =? canonicalize c else a =? c.

Definition swap_case (c : N) : N :=
  if between 97 122 c then c - 32
  else if between 65 90 c then c + 32 else c.

Definition in_item (ignoreCase : bool) (c : N) (it : class_item) : bool :=
  match it with
  | CChar a => char_eq ignoreCase a c
  | CRange lo hi =>
      between lo hi c || (ignoreCase && between lo hi (swap_case c))
  | CSpace => is_space c
  | CWord => is_word c
  end.

Definition in_class (ignoreCase negated : bool) (items : list class_item)
    (c : N) : bool :=
  xorb negated (existsb (in_item ignoreCase c) items).

(** A position in the input: the characters before it, nearest first,
    and the characters from it on. *)
Record pos : Type := Pos { before : list N; rest : list N }.

Definition word_at (l : list N) : bool :=
  match l with c :: _ => is_word c | [] => false end.

Definition step_if (p : N -> bool) (x : pos)
    (k : pos -> option pos) : option pos :=
  match rest x with
  | c :: t => if p c then k (Pos (c :: before x) t) else None
  | [] => None
  end.

(** RepeatMatcher for a greedy [*] around matcher [m], followed by [k]:
    try one more iteration of [m] and then the rest of the repetition, and
    fall back to [k] at the current position.  An iteration that consumes
    nothing is rejected.  Each accepted iteration shortens the rest of the
    input, so the bound [n], started at the length of that rest, never cuts
    an iteration short. *)
Fixpoint repeat_matcher (m : pos -> (pos -> option pos) -> option pos)
    (k : pos -> option pos) (n : nat) (x : pos) {struct n} : option pos :=
  match n with
  | O => k x
  | S n' =>
      match
        m x (fun y =>
               if (List.length (rest y) <? List.length (rest x))%nat
               then repeat_matcher m k n' y else None)
      with
      | Some e => Some e
      | None => k x
      end
  end.

(** The matcher of [r] at position [x] with continuation [k]: the end
    position of the first successful way to match [r] and then satisfy
    [k], trying alternatives in the order the language specification
    prescribes. *)
Fixpoint rmatch (ignoreCase : bool) (r : regex) (x : pos)
    (k : pos -> option pos) {struct r} : option pos :=
  match r with
  | Eps => k x
  | Char c => step_if (char_eq ignoreCase c) x k
  | Class negated items => step_if (in_class ignoreCase negated items) x k
  | Seq r1 r2 =>
      rmatch ignoreCase r1 x (fun y => rmatch ignoreCase r2 y k)
  | Star r1 =>
      repeat_matcher (rmatch ignoreCase r1) k (List.length (rest x)) x
  | NotAhead r1 =>
      match rmatch ignoreCase r1 x Some with
      | Some _ => None
      | None => k x
      end
  | WordBoundary =>
      if xorb (word_at (before x)) (word_at (rest x)) then k x else None
  | Bol => match before x with [] => k x | _ :: _ => None end
  | Eol => match rest x with [] => k x | _ :: _ => None end
  end.

(** A match attempt at one position: the end of the match, if any. *)
Definition match_at (ignoreCase : bool) (r : regex) (x : pos)
    : option pos :=
  rmatch ignoreCase r x Some.

(** [r.exec] from a position on (no [g]/[y] flag state): the first
    position, scanning forward, at which [r] matches. *)
Fixpoint exec_from (ignoreCase : bool) (r : regex)
    (pre s : list N) : option pos :=
  match match_at ignoreCase r (Pos pre s) with
  | Some e => Some e
  | None =>
      match s with
      | [] => None
      | c :: t => exec_from ignoreCase r (c :: pre) t
      end
  end.

(** [r.test(s)] for a pattern without the [g] flag. *)
Definition test (ignoreCase : bool) (r : regex) (s : jsstring) : bool :=
  match exec_from ignoreCase r [] s with Some _ => true | None => false end.

(** [s.replace(r, repl)] for a pattern with the [g] flag and a
    replacement text free of [$] patterns.  The scan walks the input once:
    [skip] counts the characters of the current match still to be dropped.
    Where no match starts the character is copied; where a match of
    length [n] starts, [repl] is emitted and the scan resumes [n]
    characters on (one character on after an empty match, which copies
    that character). *)
Fixpoint replace_scan (ignoreCase : bool) (r : regex) (repl : jsstring)
    (pre s : list N) (skip : nat) : jsstring :=
  match s with
  | [] =>
      match skip with
      | O =>
          match match_at ignoreCase r (Pos pre []) with
          | Some _ => repl
          | None => []
          end
      | S _ => []
      end
  | c :: t =>
      match skip with
      | S n => replace_scan ignoreCase r repl (c :: pre) t n
      | O =>
          match match_at ignoreCase r (Pos pre s) with
          | Some e =>
              match (List.length s - List.length (rest e))%nat with
              | O => repl ++ c :: replace_scan ignoreCase r repl (c :: pre) t 0
              | S n => repl ++ replace_scan ignoreCase r repl (c :: pre) t n
              end
          | None => c :: replace_scan ignoreCase r repl (c :: pre) t 0
          end
      end
  end.

Definition replace_all (ignoreCase : bool) (r : regex) (repl : jsstring)
    (s : jsstring) : jsstring :=
  replace_scan ignoreCase r repl [] s 0.

End RegExp.

Import RegExp.

(** ** security.ts *)
Module SecurityUtils.

(** The pattern, its parts spaced out:
    [/ <script \b [^<]* (?: (?!<\/script>) < [^<]* )* <\/script> /gi] *)
Definition script_block : regex :=
  seq [ lit "<script"; WordBoundary;
        Star (Class true [CChar (ch "<")]);
        Star (seq [ NotAhead (lit "</script>"); Char (ch "<");
                    Star (Class true [CChar (ch "<")]) ]);
        lit "</script>" ].

(** [/ < [^>]* > /g] *)
Definition any_tag : regex :=
  seq [ Char (ch "<"); Star (Class true [CChar (ch ">")]); Char (ch ">") ].

(** [/javascript:/gi] *)
Definition javascript_scheme : regex := lit "javascript:".

(** [/ on \w+ \s* = /gi] *)
Definition event_handler : regex :=
  seq [ lit "on"; Plus (Class false [CWord]); Star (Class false [CSpace]);
        Char (ch "=") ].

Definition sanitizeHTML (input : jsstring) : jsstring :=
  replace_all true event_handler []
    (replace_all true javascript_scheme []
       (replace_all false any_tag []
          (replace_all true script_block [] input))).

(** [/^ [^\s@]+ @ [^\s@]+ \. [^\s@]+ $/] *)
Definition emailRegex : regex :=
  seq [ Bol;
        Plus (Class true [CSpace; CChar (ch "@")]); Char (ch "@");
        Plus (Class true [CSpace; CChar (ch "@")]); Char (ch ".");
        Plus (Class true [CSpace; CChar (ch "@")]);
        Eol ].

Definition isValidEmail (email : jsstring) : bool :=
  test false emailRegex email.

Definition isValidPassword (password : jsstring) : bool :=
  ((jslength password >=? 6) && (jslength password <=? 128))%Z.

(** [sessionStorage]: string keys to stored items.  The one kind of item
    this file stores is the JSON text of an array of timestamps, written
    by [JSON.stringify] and read back by [JSON.parse]; an item is kept
    here as the array it encodes.  An absent item reads as [null], which
    the source replaces by the text of the empty array. *)
Abbreviation Storage := (gmap jsstring (list Z)).

Definition getItem (st : Storage) (key : jsstring) : list Z :=
  match st !! key with
  | Some attempts => attempts
  | None => []
  end.

(** One call of [checkRateLimit] at clock reading [now] ([Date.now()]):
    the answer and the storage afterwards. *)
Definition checkRateLimit (key : jsstring) (maxAttempts windowMs : Z)
    (now : Z) (st : Storage) : bool * Storage :=
  let attempts := getItem st key in
  let recentAttempts :=
    List.filter (fun timestamp => (now - timestamp <? windowMs)%Z) attempts in
  if (jslength recentAttempts >=? maxAttempts)%Z then (false, st)
  else (true, <[ key := recentAttempts ++ [now] ]> st).

Definition validateLength (input : jsstring) (min max : Z) : bool :=
  let length := jslength (trim input) in
  ((length >=? min) && (length <=? max))%Z.

(** [/[^a-zA-Z0-9.-]/g] *)
Definition unsafe_char : regex :=
  Class true [ CRange (ch "a") (ch "z"); CRange (ch "A") (ch "Z");
               CRange (ch "0") (ch "9"); CChar (ch "."); CChar (ch "-") ].

(** [/\.\./g] *)
Definition dot_dot : regex := lit "..".

Definition sanitizeFileName (filename : jsstring) : jsstring :=
  replace_all false dot_dot (js "_")
    (replace_all false unsafe_char (js "_") filename).

(** [/[\0\n\r\b\t\cZ\cX\cV\cA]/g]; inside a class [\b] is the backspace. *)
Definition control_char : regex :=
  Class false [ CChar 0; CChar 10; CChar 13; CChar 8; CChar 9;
                CChar 26; CChar 24; CChar 22; CChar 1 ].

(** [/'/g], and the same pattern for the double quote (code unit 34). *)
Definition single_quote : regex := Char (ch "'").

Definition double_quote : regex := Char 34.

Definition escapeSQL (input : jsstring) : jsstring :=
  replace_all false double_quote [34; 34]
    (replace_all false single_quote (js "''")
       (replace_all false control_char [] input)).

End SecurityUtils.

(** ** The collaborators of poll-actions.ts

    The Supabase client and the Next.js cache are external to the
    repository.  They are modelled by what the actions can observe of them:
    two tables of rows, the answer of [auth.getUser()], and whether a
    request fails.  Row-level policies and constraints of the database are
    not modelled; a request the backend refuses is a request that fails.
    [createClient()] only builds the client the requests go through; it
    sends nothing and is not a step of the model. *)
Module Backend.

Record User : Type := { user_id_of : jsstring }.   (* [user.id] *)

(** A row of table [polls]. *)
Record PollRow : Type := {
  poll_id : jsstring;
  poll_user_id : jsstring;
  poll_question : jsstring;
  poll_options : list jsstring
}.

(** A row of table [votes]. *)
Record VoteRow : Type := {
  vote_poll_id : jsstring;
  vote_user_id : option jsstring;
  vote_option_index : Z
}.

(** The columns of [polls] the actions filter on, and an [.eq(column,
    value)] filter. *)
Inductive column : Type := col_id | col_user_id.

Definition eq_filter : Type := (column * jsstring)%type.

Definition column_value (c : column) (row : PollRow) : jsstring :=
  match c with
  | col_id => poll_id row
  | col_user_id => poll_user_id row
  end.

(** A row passes a chain of [.eq] filters when it passes each of them. *)
Definition passes (filters : list eq_filter) (row : PollRow) : bool :=
  forallb (fun f => jsstring_eqb (column_value (fst f) row) (snd f)) filters.

(** The requests the actions send. *)
Inductive request : Type :=
| AuthGetUser
| PollsInsert (user_id question : jsstring) (options : list jsstring)
| PollsSelectSingle (filters : list eq_filter)
| PollsDelete (filters : list eq_filter)
| PollsUpdate (question : jsstring) (options : list jsstring)
              (filters : list eq_filter)
| VotesInsert (poll_id : jsstring) (user_id : option jsstring)
              (option_index : Z).

(** What the actions cannot control: the session, which requests the
    backend fails (and with which message), and the id it gives the next
    poll row. *)
Record Env : Type := {
  session_user : option User;
  session_error : option jsstring;
  failure : request -> option jsstring;
  fresh_poll_id : jsstring
}.

(** What the actions can change: the tables, the requests sent so far
    (oldest first) and the paths whose cache was invalidated. *)
Record World : Type := {
  polls : list PollRow;
  votes : list VoteRow;
  sent : list request;
  revalidated : list jsstring
}.

Definition set_polls (ps : list PollRow) (w : World) : World :=
  {| polls := ps; votes := votes w; sent := sent w;
     revalidated := revalidated w |}.

Definition set_votes (vs : list VoteRow) (w : World) : World :=
  {| polls := polls w; votes := vs; sent := sent w;
     revalidated := revalidated w |}.

Definition log (q : request) (w : World) : World :=
  {| polls := polls w; votes := votes w; sent := sent w ++ [q];
     revalidated := revalidated w |}.

(** An action reads the environment and threads the world. *)
Definition Action (A : Type) : Type := Env -> World -> A * World.

Definition ret {A} (a : A) : Action A := fun _ w => (a, w).

Definition bind {A B} (m : Action A) (f : A -> Action B) : Action B :=
  fun env w => let (a, w') := m env w in f a env w'.

(** [supabase.auth.getUser()]: [data.user] and [error.message]. *)
Definition auth_getUser : Action (option User * option jsstring) :=
  fun env w => ((session_user env, session_error env), log AuthGetUser w).

(** A request to a table: logged, then either failed with the backend's
    message or applied. *)
Definition table_request (q : request) (apply : Env -> World -> World)
    : Action (option jsstring) :=
  fun env w =>
    match failure env q with
    | Some message => (Some message, log q w)
    | None => (None, apply env (log q w))
    end.

(** [from("polls").insert([{user_id, question, options}])] *)
Definition polls_insert (user_id question : jsstring)
    (options : list jsstring) : Action (option jsstring) :=
  table_request (PollsInsert user_id question options)
    (fun env w =>
       set_polls (polls w ++ [ {| poll_id := fresh_poll_id env;
                                  poll_user_id := user_id;
                                  poll_question := question;
                                  poll_options := options |} ]) w).

(** [from("polls").select("user_id")...single()]: [data], which is the
    selected column of the one row that passes the filters, and [null]
    when the request fails or the rows that pass are not exactly one. *)
Definition polls_select_user_id_single (filters : list eq_filter)
    : Action (option jsstring) :=
  fun env w =>
    let w' := log (PollsSelectSingle filters) w in
    match failure env (PollsSelectSingle filters) with
    | Some _ => (None, w')
    | None =>
        match List.filter (passes filters) (polls w) with
        | [row] => (Some (poll_user_id row), w')
        | _ => (None, w')
        end
    end.

(** [from("polls").delete()...] *)
Definition polls_delete (filters : list eq_filter)
    : Action (option jsstring) :=
  table_request (PollsDelete filters)
    (fun _ w =>
       set_polls (List.filter (fun row => negb (passes filters row)) (polls w)) w).

(** [from("polls").update({question, options})...] *)
Definition polls_update (question : jsstring) (options : list jsstring)
    (filters : list eq_filter) : Action (option jsstring) :=
  table_request (PollsUpdate question options filters)
    (fun _ w =>
       set_polls
         (List.map (fun row =>
                      if passes filters row
                      then {| poll_id := poll_id row;
                              poll_user_id := poll_user_id row;
                              poll_question := question;
                              poll_options := options |}
                      else row) (polls w)) w).

(** [from("votes").insert([{poll_id, user_id, option_index}])] *)
Definition votes_insert (poll_id : jsstring) (user_id : option jsstring)
    (option_index : Z) : Action (option jsstring) :=
  table_request (VotesInsert poll_id user_id option_index)
    (fun _ w =>
       set_votes (votes w ++ [ {| vote_poll_id := poll_id;
                                  vote_user_id := user_id;
                                  vote_option_index := option_index |} ]) w).

(** [revalidatePath(path)] *)
Definition revalidatePath (path : jsstring) : Action unit :=
  fun _ w =>
    (tt, {| polls := polls w; votes := votes w; sent := sent w;
            revalidated := revalidated w ++ [path] |}).

(** Reads.  What a select can observe of the backend beyond the rows:
    whether it fails and with which message, the message of [.single()]
    when the rows that pass the filters are not exactly one, and the order
    that [order("created_at", { ascending: false })] puts rows in (the
    rows of the model carry no [created_at]). *)
Record ReadEnv : Type := {
  select_failure : list eq_filter -> option jsstring;
  not_single : jsstring;
  newest_first : list PollRow -> list PollRow
}.

(** [from("polls").select("*")...single()]: [data] and [error.message]. *)
Definition polls_select_single (renv : ReadEnv) (filters : list eq_filter)
    (rows : list PollRow) : option PollRow * option jsstring :=
  match select_failure renv filters with
  | Some message => (None, Some message)
  | None =>
      match List.filter (passes filters) rows with
      | [row] => (Some row, None)
      | _ => (None, Some (not_single renv))
      end
  end.

(** [from("polls").select("*")...order("created_at", { ascending: false })]:
    [data] and [error.message]. *)
Definition polls_select_newest_first (renv : ReadEnv)
    (filters : list eq_filter) (rows : list PollRow)
    : option (list PollRow) * option jsstring :=
  match select_failure renv filters with
  | Some message => (None, Some message)
  | None => (Some (newest_first renv (List.filter (passes filters) rows)), None)
  end.

End Backend.

Import Backend.

Notation "x <- m ;; k" := (bind m (fun x => k))
  (at level 100, m at next level, right associativity).
Notation "m ;;; k" := (bind m (fun _ => k))
  (at level 100, right associativity).

(** ** poll-actions.ts *)
Module PollActions.

(** [FormData] holding text fields: the entries in order. *)
Definition FormData : Type := list (jsstring * jsstring).

(** [formData.get(name)]: the first value under [name], or [null]. *)
Fixpoint get (formData : FormData) (name : jsstring) : option jsstring :=
  match formData with
  | [] => None
  | (n, v) :: t => if jsstring_eqb n name then Some v else get t name
  end.

(** [formData.getAll(name)] *)
Fixpoint getAll (formData : FormData) (name : jsstring) : list jsstring :=
  match formData with
  | [] => []
  | (n, v) :: t =>
      if jsstring_eqb n name then v :: getAll t name else getAll t name
  end.

(** Every action answers [{ error: string | null }].  The answer records,
    next to the message, which of the source's return statements produced
    it: a validation, authentication or authorization refusal of the
    action itself, or a message passed on from the backend. *)
Inductive failure_kind : Type :=
| ValidationError
| AuthenticationRequired
| AuthorizationError
| BackendError.

Inductive Result : Type :=
| Ok
| Err (kind : failure_kind) (message : jsstring).

(** The [error] field of the answer. *)
Definition error (r : Result) : option jsstring :=
  match r with
  | Ok => None
  | Err _ message => Some message
  end.

(** The tag stripping written out in [createPoll]:
    [.replace(script block, '').replace(tag, '')], with the first two
    patterns of [SecurityUtils.sanitizeHTML]. *)
Definition strip_tags (s : jsstring) : jsstring :=
  replace_all false SecurityUtils.any_tag []
    (replace_all true SecurityUtils.script_block [] s).

(** The [typeof ... === 'string'] tests hold of every text field. *)
Definition createPoll (formData : FormData) : Action Result :=
  let question := get formData (js "question") in
  let options := List.filter truthy (getAll formData (js "options")) in
  match question with
  | None => ret (Err ValidationError (js "Please provide a valid question."))
  | Some question =>
  if negb (truthy question) || (jslength (trim question) =? 0)%Z then
    ret (Err ValidationError (js "Please provide a valid question."))
  else if (jslength (trim question) >? 500)%Z then
    ret (Err ValidationError (js "Question must be 500 characters or less."))
  else if (jslength options <? 2)%Z then
    ret (Err ValidationError (js "Please provide at least two options."))
  else if (jslength options >? 10)%Z then
    ret (Err ValidationError (js "Maximum 10 options allowed."))
  else
  let validOptions :=
    filter_indexed (fun opt index self => (indexOf self opt =? index)%Z)
      (List.map trim
         (List.filter (fun opt => (jslength (trim opt) >? 0)%Z) options)) in
  if (jslength validOptions <? 2)%Z then
    ret (Err ValidationError
           (js "Please provide at least two unique, non-empty options."))
  else if existsb (fun opt => (jslength opt >? 200)%Z) validOptions then
    ret (Err ValidationError
           (js "Each option must be 200 characters or less."))
  else
  let sanitizedQuestion := strip_tags (trim question) in
  let sanitizedOptions := List.map strip_tags validOptions in
  auth <- auth_getUser ;;
  let (user, userError) := auth : option User * option jsstring in
  match userError with
  | Some message => ret (Err BackendError message)
  | None =>
  match user with
  | None =>
      ret (Err AuthenticationRequired
             (js "You must be logged in to create a poll."))
  | Some user =>
  error <- polls_insert (user_id_of user) sanitizedQuestion sanitizedOptions ;;
  match error with
  | Some message => ret (Err BackendError message)
  | None =>
  revalidatePath (js "/polls") ;;;
  ret Ok
  end end end end.

Definition submitVote (pollId : jsstring) (optionIndex : Z)
    : Action Result :=
  auth <- auth_getUser ;;
  let user := fst auth in
  error <- votes_insert pollId (option_map user_id_of user) optionIndex ;;
  match error with
  | Some message => ret (Err BackendError message)
  | None => ret Ok
  end.

Definition deletePoll (id : jsstring) : Action Result :=
  auth <- auth_getUser ;;
  match fst auth with
  | None =>
      ret (Err AuthenticationRequired
             (js "You must be logged in to delete a poll."))
  | Some user =>
  poll <- polls_select_user_id_single [(col_id, id)] ;;
  if match poll with
     | None => true
     | Some poll_user_id => negb (jsstring_eqb poll_user_id (user_id_of user))
     end
  then
    ret (Err AuthorizationError (js "You can only delete your own polls."))
  else
  error <- polls_delete [(col_id, id)] ;;
  match error with
  | Some message => ret (Err BackendError message)
  | None =>
  revalidatePath (js "/polls") ;;;
  ret Ok
  end end.

Definition updatePoll (pollId : jsstring) (formData : FormData)
    : Action Result :=
  let question := get formData (js "question") in
  let options := List.filter truthy (getAll formData (js "options")) in
  match question with
  | None =>
      ret (Err ValidationError
             (js "Please provide a question and at least two options."))
  | Some question =>
  if negb (truthy question) || (jslength options <? 2)%Z then
    ret (Err ValidationError
           (js "Please provide a question and at least two options."))
  else
  auth <- auth_getUser ;;
  let (user, userError) := auth : option User * option jsstring in
  match userError with
  | Some message => ret (Err BackendError message)
  | None =>
  match user with
  | None =>
      ret (Err AuthenticationRequired
             (js "You must be logged in to update a poll."))
  | Some user =>
  error <- polls_update question options
             [(col_id, pollId); (col_user_id, user_id_of user)] ;;
  match error with
  | Some message => ret (Err BackendError message)
  | None => ret Ok
  end end end end.

(** The two reads answer [{ polls, error }] and [{ poll, error }]; they
    send no write, so they are functions of the rows of [polls]. *)
Definition getUserPolls (env : Env) (renv : ReadEnv) (rows : list PollRow)
    : list PollRow * option jsstring :=
  match session_user env with
  | None => ([], Some (js "Not authenticated"))
  | Some user =>
      let (data, error) :=
        polls_select_newest_first renv [(col_user_id, user_id_of user)] rows in
      match error with
      | Some message => ([], Some message)
      | None => (match data with Some polls => polls | None => [] end, None)
      end
  end.

Definition getPollById (id : jsstring) (renv : ReadEnv) (rows : list PollRow)
    : option PollRow * option jsstring :=
  let (data, error) := polls_select_single renv [(col_id, id)] rows in
  match error with
  | Some message => (None, Some message)
  | None => (data, None)
  end.

End PollActions.

Import PollActions.

(** ** Notions the properties are stated with *)

(** What the ownership fetch of [deletePoll] yields for poll [id]: the
    owner id of the fetched poll, or nothing when no poll is fetched. *)
Definition fetched_owner (id : jsstring) (env : Env) (w : World)
    : option jsstring :=
  fst (polls_select_user_id_single [(col_id, id)] env w).

(** The option entries [updatePoll] and [createPoll] count: the non-empty
    values under ["options"]. *)
Definition supplied_options (formData : FormData) : list jsstring :=
  List.filter truthy (getAll formData (js "options")).

(** De-duplication by exact match, in first-seen order: an entry is kept
    when none of the entries [earlier] in the list equals it. *)
Fixpoint dedupe_after (earlier l : list jsstring) : list jsstring :=
  match l with
  | [] => []
  | x :: t =>
      if existsb (jsstring_eqb x) earlier
      then dedupe_after (earlier ++ [x]) t
      else x :: dedupe_after (earlier ++ [x]) t
  end.

(** The normalization of a poll's options as the specification words it:
    trim each entry, drop the empty ones, de-duplicate. *)
Definition normalize_options (options : list jsstring) : list jsstring :=
  dedupe_after [] (List.filter truthy (List.map trim options)).

(** The options [createPoll] keeps, as its code computes them from the
    values under ["options"]. *)
Definition valid_options (formData : FormData) : list jsstring :=
  filter_indexed (fun opt index self => (indexOf self opt =? index)%Z)
    (List.map trim
       (List.filter (fun opt => (jslength (trim opt) >? 0)%Z)
          (supplied_options formData))).

(** The world after a successful [createPoll] by [u] that persists
    [question] and [options]. *)
Definition created (env : Env) (w : World) (u : User)
    (question : jsstring) (options : list jsstring) : World :=
  {| polls := polls w ++ [ {| poll_id := fresh_poll_id env;
                              poll_user_id := user_id_of u;
                              poll_question := question;
                              poll_options := options |} ];
     votes := votes w;
     sent := sent w ++ [ AuthGetUser;
                         PollsInsert (user_id_of u) question options ];
     revalidated := revalidated w ++ [js "/polls"] |}.

(** The claim about [createPoll] on well-formed input, for a given
    sanitizing function: with an authenticated identity and a backend that
    accepts the insert, the answer carries no error and one poll is added,
    owned by the identity, holding the sanitized trimmed question and
    options. *)
Definition createPoll_persists (sanitize : jsstring -> jsstring) : Prop :=
  forall (formData : FormData) (question : jsstring)
         (options : list jsstring) (u : User) (env : Env) (w : World),
    get formData (js "question") = Some question ->
    getAll formData (js "options") = options ->
    trim question <> [] ->
    (length (trim question) <= 500)%nat ->
    (2 <= length options <= 10)%nat ->
    Forall (fun opt => trim opt <> [] /\ (length (trim opt) <= 200)%nat)
      options ->
    NoDup (List.map trim options) ->
    session_user env = Some u ->
    session_error env = None ->
    failure env (PollsInsert (user_id_of u) (sanitize (trim question))
                   (List.map sanitize (List.map trim options))) = None ->
    createPoll formData env w =
      (Ok, created env w u (sanitize (trim question))
             (List.map sanitize (List.map trim options))).

(** The claim about what [updatePoll] forwards, without a condition on the
    session: past the two checks, an update carrying the question and the
    options is among the requests sent. *)
Definition updatePoll_always_forwards : Prop :=
  forall (pollId : jsstring) (formData : FormData) (question : jsstring)
         (env : Env) (w : World),
    get formData (js "question") = Some question ->
    question <> [] ->
    (2 <= length (supplied_options formData))%nat ->
    exists filters,
      In (PollsUpdate question (supplied_options formData) filters)
         (sent (snd (updatePoll pollId formData env w))).

(** Successive calls of [checkRateLimit] for one key, at the clock readings
    [times]: the answers in order and the storage at the end. *)
Fixpoint rate_limit_calls (key : jsstring) (maxAttempts windowMs : Z)
    (times : list Z) (st : SecurityUtils.Storage)
    : list bool * SecurityUtils.Storage :=
  match times with
  | [] => ([], st)
  | now :: later =>
      let (answer, st') :=
        SecurityUtils.checkRateLimit key maxAttempts windowMs now st in
      let (answers, st'') :=
        rate_limit_calls key maxAttempts windowMs later st' in
      (answer :: answers, st'')
  end.

(** Every recorded timestamp in [earlier] is less than [windowMs] old at
    clock reading [now]; every one is at least [windowMs] old. *)
Definition recent (windowMs now : Z) (earlier : list Z) : Prop :=
  Forall (fun timestamp => (now - timestamp < windowMs)%Z) earlier.

Definition expired (windowMs now : Z) (earlier : list Z) : Prop :=
  Forall (fun timestamp => (windowMs <= now - timestamp)%Z) earlier.

(** The characters a sanitized file name may hold: ASCII letters, digits,
    ['.'], ['-'] and ['_']. *)
Definition file_name_char (c : N) : bool :=
  between (ch "a") (ch "z") c || between (ch "A") (ch "Z") c
  || between (ch "0") (ch "9") c
  || (c =? ch ".") || (c =? ch "-") || (c =? ch "_").

(** [s] holds [sub] as a substring. *)
Definition has_substring (sub s : jsstring) : Prop :=
  exists before after, s = before ++ sub ++ after.

(** Each ["."] followed by another ["."] becomes one ["_"], from left to
    right: what replacing every match of [dot_dot] by ["_"] comes to. *)
Fixpoint collapse_dots (s : jsstring) : jsstring :=
  match s with
  | [] => []
  | c :: t =>
      match t with
      | d :: t' =>
          if (ch "." =? c) && (ch "." =? d)
          then ch "_" :: collapse_dots t'
          else c :: collapse_dots t
      | [] => [c]
      end
  end.

(** A non-empty run of non-whitespace characters. *)
Definition non_space_run (a : jsstring) : Prop :=
  a <> [] /\ Forall (fun c => is_space c = false) a.

(** The shape [isValidEmail] is meant to accept: a non-whitespace run,
    ["@"], a non-whitespace run, ["."], a non-whitespace run, with ["@"]
    occurring once in the whole string. *)
Definition email_shape (s : jsstring) : Prop :=
  exists local domain tld,
    s = local ++ js "@" ++ domain ++ js "." ++ tld
    /\ non_space_run local /\ non_space_run domain /\ non_space_run tld
    /\ List.count_occ N.eq_dec s (ch "@") = 1%nat.

(** The nine characters [escapeSQL] removes. *)
Definition is_control (c : N) : bool :=
  existsb (fun a => a =? c) [0; 10; 13; 8; 9; 26; 24; 22; 1].

(** What [escapeSQL] makes of one character. *)
Definition escape_char (c : N) : jsstring :=
  if is_control c then []
  else if ch "'" =? c then [ch "'"; ch "'"]
  else if 34 =? c then [34; 34]
  else [c].

(** [s] holds a tag: a ["<"] with a [">"] somewhere after it. *)
Definition has_tag (s : jsstring) : Prop :=
  exists a b c, s = a ++ ch "<" :: b ++ ch ">" :: c.

(** A run of white space. *)
Definition white (ws : jsstring) : Prop :=
  Forall (fun c => is_space c = true) ws.

(** No ["<"] of [s] has a [">"] after it. *)
Fixpoint tag_free (s : jsstring) : Prop :=
  match s with
  | [] => True
  | c :: t => (c = ch "<" -> ~ In (ch ">") t) /\ tag_free t
  end.

(** What the first replacement of [sanitizeFileName] makes of one
    character. *)
Definition replace_unsafe (c : N) : N :=
  if in_class false true
       [ CRange (ch "a") (ch "z"); CRange (ch "A") (ch "Z");
         CRange (ch "0") (ch "9"); CChar (ch "."); CChar (ch "-") ] c
  then ch "_" else c.

(** The clock readings of the calls that were answered [true]. *)
Fixpoint granted (times : list Z) (answers : list bool) : list Z :=
  match times, answers with
  | t :: times', a :: answers' =>
      if a then t :: granted times' answers' else granted times' answers'
  | _, _ => []
  end.

(** A clock that never runs backwards. *)
Fixpoint nondecreasing (times : list Z) : Prop :=
  match times with
  | t1 :: later =>
      match later with
      | t2 :: _ => (t1 <= t2)%Z /\ nondecreasing later
      | [] => True
      end
  | [] => True
  end.

(** The readings of [times] less than [windowMs] old at [now]. *)
Definition in_window (windowMs now : Z) (times : list Z) : list Z :=
  List.filter (fun timestamp => (now - timestamp <? windowMs)%Z) times.

(** What is stored under [key] agrees with the history [hist] of granted
    calls on everything that can still be in the window from [lo] on. *)
Definition tracks (key : jsstring) (windowMs lo : Z)
    (st : SecurityUtils.Storage) (hist : list Z) : Prop :=
  forall now, (lo <= now)%Z ->
    in_window windowMs now (SecurityUtils.getItem st key)
    = in_window windowMs now hist.

(** ** Sample data *)

Definition alice : User := {| user_id_of := js "alice" |}.

Definition bob_poll : PollRow :=
  {| poll_id := js "p1"; poll_user_id := js "bob";
     poll_question := js "Tea or coffee?";
     poll_options := [js "tea"; js "coffee"] |}.

Definition anonymous_env : Env :=
  {| session_user := None; session_error := None;
     failure := fun _ => None; fresh_poll_id := js "p9" |}.

Definition alice_env : Env :=
  {| session_user := Some alice; session_error := None;
     failure := fun _ => None; fresh_poll_id := js "p9" |}.

Definition empty_world : World :=
  {| polls := []; votes := []; sent := []; revalidated := [] |}.

Definition bob_world : World :=
  {| polls := [bob_poll]; votes := []; sent := []; revalidated := [] |}.

Definition sample_form : FormData :=
  [ (js "question", js "Red or blue?");
    (js "options", js "red"); (js "options", js "blue") ].

Definition markup_form : FormData :=
  [ (js "question", js " <b>Red</b> or blue? ");
    (js "options", js "red "); (js "options", js "red ");
    (js "options", js "") ].

Definition scheme_form : FormData :=
  [ (js "question", js "Click: javascript:x");
    (js "options", js "yes"); (js "options", js "no") ].

Definition failing_env : Env :=
  {| session_user := Some alice; session_error := None;
     failure := fun _ => Some (js "permission denied");
     fresh_poll_id := js "p9" |}.

Definition sample_reads : ReadEnv :=
  {| select_failure := fun _ => None;
     not_single := js "no single row";
     newest_first := @rev PollRow |}.

Definition alice_poll : PollRow :=
  {| poll_id := js "p2"; poll_user_id := js "alice";
     poll_question := js "Cats or dogs?";
     poll_options := [js "cats"; js "dogs"] |}.

Definition shared_world : World :=
  {| polls := [bob_poll; alice_poll]; votes := []; sent := [];
     revalidated := [] |}.

(** * Properties *)

(** ** Strings *)

Lemma jsstring_eqb_eq (a b : jsstring) : jsstring_eqb a b = true <-> a = b.
Proof.
  revert b; induction a as [|x a IH]; intros [|y b]; simpl; split;
    try congruence; try reflexivity.
  - intros H. apply andb_prop in H as [Hx Hab].
    apply N.eqb_eq in Hx. apply IH in Hab. congruence.
  - intros H. injection H as -> ->.
    rewrite N.eqb_refl. simpl. apply IH. reflexivity.
Qed.

Lemma jsstring_eqb_refl (a : jsstring) : jsstring_eqb a a = true.
Proof. apply jsstring_eqb_eq. reflexivity. Qed.

Lemma jsstring_eqb_neq (a b : jsstring) : a <> b -> jsstring_eqb a b = false.
Proof.
  intros H. destruct (jsstring_eqb a b) eqn:E; [|reflexivity].
  apply jsstring_eqb_eq in E. contradiction.
Qed.

(** ** sanitizeHTML *)

(** C7: [sanitizeHTML] turns ["<script>alert(1)</script>hello"] into
    ["hello"], and ["<img src=x onerror=alert(1)>"] into the empty
    string. *)
Theorem sanitizeHTML_examples :
  SecurityUtils.sanitizeHTML (js "<script>alert(1)</script>hello") = js "hello"
  /\ SecurityUtils.sanitizeHTML (js "<img src=x onerror=alert(1)>") = js "".
Proof. split; vm_compute; reflexivity. Qed.

(** ** submitVote *)

(** C6: with no resolved identity and a backend that accepts the insert,
    [submitVote] answers without error for any poll id and any integer
    option index, and the one thing it changes in the tables is to add one
    vote row with a null voter id and the option index as given. *)
Theorem submitVote_anonymous (pollId : jsstring) (optionIndex : Z)
    (env : Env) (w : World) :
  session_user env = None ->
  failure env (VotesInsert pollId None optionIndex) = None ->
  let (r, w') := submitVote pollId optionIndex env w in
  error r = None
  /\ votes w' = votes w ++ [ {| vote_poll_id := pollId;
                                vote_user_id := None;
                                vote_option_index := optionIndex |} ]
  /\ polls w' = polls w
  /\ sent w' = sent w ++ [AuthGetUser; VotesInsert pollId None optionIndex].
Proof.
  intros Huser Hok.
  unfold submitVote, bind, auth_getUser, votes_insert, table_request.
  cbn [fst]. rewrite Huser. cbn [option_map]. rewrite Hok. cbn.
  rewrite <- app_assoc. repeat split; reflexivity.
Qed.

Lemma submitVote_anonymous_witness :
  session_user anonymous_env = None
  /\ failure anonymous_env (VotesInsert (js "p1") None 42) = None
  /\ let (r, w') := submitVote (js "p1") 42 anonymous_env empty_world in
  error r = None
  /\ votes w' = [ {| vote_poll_id := js "p1"; vote_user_id := None;
                     vote_option_index := 42 |} ]
  /\ polls w' = []
  /\ sent w' = [AuthGetUser; VotesInsert (js "p1") None 42].
Proof.
  split; [reflexivity|]. split; [reflexivity|].
  exact (submitVote_anonymous (js "p1") 42 anonymous_env empty_world
           eq_refl eq_refl).
Defined.

(** ** deletePoll *)

Lemma fetched_owner_log id env w q :
  fetched_owner id env (log q w) = fetched_owner id env w.
Proof.
  unfold fetched_owner, polls_select_user_id_single. cbn [polls log].
  destruct (failure env _); [reflexivity|].
  destruct (List.filter _ (polls w)) as [|row [|row' l]]; reflexivity.
Qed.

(** No row with the id, no fetched poll. *)
Lemma fetched_owner_absent id env w :
  (forall row, In row (polls w) -> poll_id row <> id) ->
  fetched_owner id env w = None.
Proof.
  intros Habsent. unfold fetched_owner, polls_select_user_id_single.
  destruct (failure env _); [reflexivity|].
  replace (List.filter (passes [(col_id, id)]) (polls w)) with (@nil PollRow);
    [reflexivity|].
  induction (polls w) as [|row rows IH]; [reflexivity|].
  cbn [List.filter]. unfold passes at 1. cbn [forallb fst snd column_value].
  rewrite jsstring_eqb_neq by (apply Habsent; left; reflexivity).
  cbn [andb]. apply IH. intros r Hin. apply Habsent. right. exact Hin.
Qed.

(** C1: for an authenticated identity [u] and any poll id, when the fetch
    yields no poll or a poll whose owner id is not [u]'s, [deletePoll]
    answers with the authorization error, the requests it has sent are the
    identity lookup and the fetch, with no delete among them, and the
    tables are as before. *)
Theorem deletePoll_not_owner (id : jsstring) (u : User)
    (env : Env) (w : World) :
  session_user env = Some u ->
  (fetched_owner id env w = None
   \/ exists owner, fetched_owner id env w = Some owner
                    /\ owner <> user_id_of u) ->
  let (r, w') := deletePoll id env w in
  r = Err AuthorizationError (js "You can only delete your own polls.")
  /\ sent w' = sent w ++ [AuthGetUser; PollsSelectSingle [(col_id, id)]]
  /\ polls w' = polls w
  /\ votes w' = votes w.
Proof.
  intros Huser Hfetch.
  rewrite <- (fetched_owner_log id env w AuthGetUser) in Hfetch.
  unfold fetched_owner in Hfetch.
  unfold deletePoll, bind, auth_getUser. cbn [fst]. rewrite Huser.
  destruct (polls_select_user_id_single [(col_id, id)] env (log AuthGetUser w))
    as [poll w1] eqn:Hsel.
  assert (Hw1 : w1 = log (PollsSelectSingle [(col_id, id)]) (log AuthGetUser w)).
  { unfold polls_select_user_id_single in Hsel.
    destruct (failure env _); [congruence|].
    destruct (List.filter _ _) as [|row [|row' l]]; congruence. }
  cbn [fst] in Hfetch.
  assert (Hrefuse :
    match poll with
    | None => true
    | Some poll_user_id => negb (jsstring_eqb poll_user_id (user_id_of u))
    end = true).
  { destruct Hfetch as [-> | (owner & -> & Hne)]; [reflexivity|].
    rewrite jsstring_eqb_neq by assumption. reflexivity. }
  rewrite Hrefuse. subst w1. cbn.
  rewrite <- app_assoc. repeat split; reflexivity.
Qed.

Lemma deletePoll_not_owner_witness :
  session_user alice_env = Some alice
  /\ fetched_owner (js "p1") alice_env bob_world = Some (js "bob")
  /\ js "bob" <> user_id_of alice
  /\ let (r, w') := deletePoll (js "p1") alice_env bob_world in
     r = Err AuthorizationError (js "You can only delete your own polls.")
     /\ sent w' = [AuthGetUser; PollsSelectSingle [(col_id, js "p1")]]
     /\ polls w' = [bob_poll]
     /\ votes w' = [].
Proof.
  assert (Hne : js "bob" <> user_id_of alice) by (vm_compute; discriminate).
  split; [reflexivity|]. split; [reflexivity|]. split; [exact Hne|].
  exact (deletePoll_not_owner (js "p1") alice alice_env bob_world eq_refl
           (or_intror (ex_intro _ (js "bob") (conj eq_refl Hne)))).
Defined.

(** ** updatePoll *)

(** Past its checks and with a resolved identity, [updatePoll] is one
    identity lookup followed by one update request. *)
Lemma updatePoll_accepted (pollId : jsstring) (formData : FormData)
    (question : jsstring) (u : User) (env : Env) (w : World) :
  get formData (js "question") = Some question ->
  question <> [] ->
  (2 <= length (supplied_options formData))%nat ->
  session_user env = Some u ->
  session_error env = None ->
  updatePoll pollId formData env w =
    let (error, w') :=
      polls_update question (supplied_options formData)
        [(col_id, pollId); (col_user_id, user_id_of u)]
        env (log AuthGetUser w) in
    (match error with
     | Some message => Err BackendError message
     | None => Ok
     end, w').
Proof.
  intros Hq Hne Hopts Huser Herr.
  unfold updatePoll, bind, auth_getUser. rewrite Hq.
  fold (supplied_options formData).
  assert (Htruthy : truthy question = true)
    by (destruct question; [congruence|reflexivity]).
  assert (Hlen : (jslength (supplied_options formData) <? 2)%Z = false).
  { unfold jslength. apply Z.ltb_ge. lia. }
  rewrite Htruthy, Hlen. cbn [negb orb]. rewrite Huser, Herr.
  destruct (polls_update _ _ _ env (log AuthGetUser w)) as [[message|] w'];
    reflexivity.
Qed.

(** An update changes no row when no row passes its filters. *)
Lemma update_misses (question : jsstring) (options : list jsstring)
    (filters : list eq_filter) (rows : list PollRow) :
  (forall row, In row rows -> passes filters row = false) ->
  List.map (fun row =>
              if passes filters row
              then {| poll_id := poll_id row;
                      poll_user_id := poll_user_id row;
                      poll_question := question;
                      poll_options := options |}
              else row) rows = rows.
Proof.
  induction rows as [|row rows IH]; intros Hmiss; [reflexivity|].
  cbn [List.map]. rewrite (Hmiss row) by (left; reflexivity).
  rewrite IH by (intros r' Hin; apply Hmiss; right; exact Hin).
  reflexivity.
Qed.

(** C3: for an authenticated identity [u] and a form that passes the
    checks of [updatePoll], the requests sent are the identity lookup and
    one update, filtered by the poll id and by [u]'s id; when the backend
    reports success and no row has both that id and that owner, the answer
    carries no error and the tables are as before. *)
Theorem updatePoll_filter_authorization (pollId : jsstring)
    (formData : FormData) (question : jsstring) (u : User)
    (env : Env) (w : World) :
  get formData (js "question") = Some question ->
  question <> [] ->
  (2 <= length (supplied_options formData))%nat ->
  session_user env = Some u ->
  session_error env = None ->
  let update :=
    PollsUpdate question (supplied_options formData)
      [(col_id, pollId); (col_user_id, user_id_of u)] in
  let (r, w') := updatePoll pollId formData env w in
  sent w' = sent w ++ [AuthGetUser; update]
  /\ (failure env update = None ->
      (forall row, In row (polls w) -> poll_id row = pollId ->
                   poll_user_id row <> user_id_of u) ->
      r = Ok /\ error r = None /\ polls w' = polls w /\ votes w' = votes w).
Proof.
  intros Hq Hne Hopts Huser Herr update.
  rewrite (updatePoll_accepted pollId formData question u env w)
    by assumption.
  unfold polls_update, table_request. fold update.
  destruct (failure env update) as [message|] eqn:Hfail;
    cbn [sent log set_polls polls votes error].
  - rewrite <- app_assoc. split; [reflexivity|]. discriminate.
  - rewrite <- app_assoc. split; [reflexivity|].
    intros _ Hother. repeat split.
    apply update_misses. intros row Hin.
    unfold passes. cbn [forallb fst snd column_value].
    destruct (jsstring_eqb (poll_id row) pollId) eqn:Hid; [|reflexivity].
    apply jsstring_eqb_eq in Hid.
    rewrite jsstring_eqb_neq by (apply Hother; assumption).
    reflexivity.
Qed.

Lemma updatePoll_filter_authorization_witness :
  let update :=
    PollsUpdate (js "Red or blue?") [js "red"; js "blue"]
      [(col_id, js "p1"); (col_user_id, js "alice")] in
  let (r, w') := updatePoll (js "p1") sample_form alice_env bob_world in
  sent w' = [AuthGetUser; update] /\ r = Ok /\ polls w' = [bob_poll].
Proof.
  assert (Hq : get sample_form (js "question") = Some (js "Red or blue?"))
    by reflexivity.
  assert (Hne : js "Red or blue?" <> []) by (vm_compute; discriminate).
  assert (Hopts : (2 <= length (supplied_options sample_form))%nat)
    by (vm_compute; lia).
  assert (Hother : forall row, In row (polls bob_world) ->
            poll_id row = js "p1" -> poll_user_id row <> user_id_of alice).
  { intros row [<- | []] _. vm_compute. discriminate. }
  pose proof (updatePoll_filter_authorization (js "p1") sample_form
                (js "Red or blue?") alice alice_env bob_world
                Hq Hne Hopts eq_refl eq_refl) as H.
  cbv zeta in H.
  destruct (updatePoll (js "p1") sample_form alice_env bob_world) as [r w'].
  destruct H as [Hsent Hrest].
  destruct (Hrest eq_refl Hother) as (Hr & _ & Hpolls & _).
  cbv zeta. repeat split; assumption.
Defined.

(** [updatePoll] answers with a validation error exactly when the question
    is absent or empty or fewer than two non-empty option entries are
    supplied. *)
Lemma updatePoll_validation (pollId : jsstring) (formData : FormData)
    (env : Env) (w : World) :
  (exists message,
      fst (updatePoll pollId formData env w) = Err ValidationError message)
  <-> (get formData (js "question") = None
       \/ get formData (js "question") = Some []
       \/ (length (supplied_options formData) < 2)%nat).
Proof.
  unfold updatePoll, bind, auth_getUser, polls_update, table_request.
  fold (supplied_options formData).
  destruct (get formData (js "question")) as [question|].
  2:{ cbn. split; [auto|]. intros _. eexists. reflexivity. }
  destruct (Z.ltb_spec (jslength (supplied_options formData)) 2) as [Hlt|Hge];
    unfold jslength in *.
  - rewrite orb_true_r. cbn. split; [intros _; right; right; lia|].
    intros _. eexists. reflexivity.
  - rewrite orb_false_r. destruct question as [|c question]; cbn [truthy negb].
    + cbn. split; [auto|]. intros _. eexists. reflexivity.
    + split.
      * intros [message H]. exfalso. revert H.
        destruct (session_error env); [cbn; discriminate|].
        destruct (session_user env); [|cbn; discriminate].
        destruct (failure env _); cbn; discriminate.
      * intros [H | [H | H]]; [discriminate | discriminate | lia].
Qed.

(** C5, as amended: [updatePoll] answers with a validation error exactly
    when the question is absent or empty or fewer than two non-empty option
    entries are supplied; in every other case in which the identity lookup
    yields a user and no error, it sends one update that carries the
    question and the non-empty option entries exactly as supplied, whatever
    their length, markup, surrounding white space or repetitions. *)
Theorem updatePoll_forwards_verbatim (pollId : jsstring)
    (formData : FormData) (env : Env) (w : World) :
  ((exists message,
       fst (updatePoll pollId formData env w) = Err ValidationError message)
   <-> (get formData (js "question") = None
        \/ get formData (js "question") = Some []
        \/ (length (supplied_options formData) < 2)%nat))
  /\ (forall question u,
        get formData (js "question") = Some question ->
        question <> [] ->
        (2 <= length (supplied_options formData))%nat ->
        session_user env = Some u ->
        session_error env = None ->
        sent (snd (updatePoll pollId formData env w)) =
          sent w ++ [ AuthGetUser;
                      PollsUpdate question (supplied_options formData)
                        [(col_id, pollId); (col_user_id, user_id_of u)] ]).
Proof.
  split; [apply updatePoll_validation|].
  intros question u Hq Hne Hopts Huser Herr.
  rewrite (updatePoll_accepted pollId formData question u env w)
    by assumption.
  unfold polls_update, table_request.
  destruct (failure env _); cbn; rewrite <- app_assoc; reflexivity.
Qed.

Lemma updatePoll_forwards_verbatim_witness :
  sent (snd (updatePoll (js "p1") markup_form alice_env bob_world))
  = [ AuthGetUser;
      PollsUpdate (js " <b>Red</b> or blue? ") [js "red "; js "red "]
        [(col_id, js "p1"); (col_user_id, js "alice")] ].
Proof.
  refine (proj2 (updatePoll_forwards_verbatim (js "p1") markup_form
                   alice_env bob_world)
            (js " <b>Red</b> or blue? ") alice eq_refl _ _ eq_refl eq_refl).
  - vm_compute. discriminate.
  - vm_compute. lia.
Defined.

(** Without a condition on the session the forwarding does not hold: with
    no resolved identity a form that passes both checks is answered with
    the authentication error and no update is sent. *)
Lemma updatePoll_unauthenticated_not_forwarded :
  ~ updatePoll_always_forwards.
Proof.
  intros Hclaim.
  destruct (Hclaim (js "p1") sample_form (js "Red or blue?")
              anonymous_env bob_world eq_refl)
    as [filters Hin].
  - vm_compute. discriminate.
  - vm_compute. lia.
  - vm_compute in Hin. destruct Hin as [Habs|[]]. discriminate Habs.
Qed.

(** ** checkRateLimit *)

Section RateLimit.

Import SecurityUtils.

Variables (key : jsstring) (maxAttempts windowMs : Z).

Lemma filter_recent (now : Z) (attempts : list Z) :
  recent windowMs now attempts ->
  List.filter (fun timestamp => (now - timestamp <? windowMs)%Z) attempts
  = attempts.
Proof.
  induction 1 as [|t l Ht _ IH]; [reflexivity|].
  cbn [List.filter]. apply Z.ltb_lt in Ht. rewrite Ht, IH. reflexivity.
Qed.

Lemma filter_expired (now : Z) (attempts : list Z) :
  expired windowMs now attempts ->
  List.filter (fun timestamp => (now - timestamp <? windowMs)%Z) attempts
  = [].
Proof.
  induction 1 as [|t l Ht _ IH]; [reflexivity|].
  cbn [List.filter]. apply Z.ltb_ge in Ht. rewrite Ht, IH. reflexivity.
Qed.

(** Below the limit the call is allowed and its time is recorded. *)
Lemma checkRateLimit_allow (now : Z) (st : Storage) (attempts : list Z) :
  getItem st key = attempts ->
  recent windowMs now attempts ->
  (Z.of_nat (length attempts) < maxAttempts)%Z ->
  checkRateLimit key maxAttempts windowMs now st
  = (true, <[ key := attempts ++ [now] ]> st).
Proof.
  intros Hget Hrecent Hlen. unfold checkRateLimit.
  rewrite Hget, filter_recent by assumption.
  unfold jslength.
  destruct (Z.geb_spec (Z.of_nat (length attempts)) maxAttempts); [lia|].
  reflexivity.
Qed.

(** At the limit the call is denied and the storage is left alone. *)
Lemma checkRateLimit_deny (now : Z) (st : Storage) (attempts : list Z) :
  getItem st key = attempts ->
  recent windowMs now attempts ->
  (maxAttempts <= Z.of_nat (length attempts))%Z ->
  checkRateLimit key maxAttempts windowMs now st = (false, st).
Proof.
  intros Hget Hrecent Hlen. unfold checkRateLimit.
  rewrite Hget, filter_recent by assumption.
  unfold jslength.
  destruct (Z.geb_spec (Z.of_nat (length attempts)) maxAttempts); [|lia].
  reflexivity.
Qed.

(** Once every recorded attempt has left the window the call is allowed
    again and the record starts afresh. *)
Lemma checkRateLimit_reset (now : Z) (st : Storage) (attempts : list Z) :
  getItem st key = attempts ->
  expired windowMs now attempts ->
  (0 < maxAttempts)%Z ->
  checkRateLimit key maxAttempts windowMs now st
  = (true, <[ key := [now] ]> st).
Proof.
  intros Hget Hexpired Hmax. unfold checkRateLimit.
  rewrite Hget, filter_expired by assumption.
  unfold jslength. cbn [length].
  destruct (Z.geb_spec (Z.of_nat 0) maxAttempts); [lia|]. reflexivity.
Qed.

Lemma getItem_insert (st : Storage) (attempts : list Z) :
  getItem (<[ key := attempts ]> st) key = attempts.
Proof. unfold getItem. rewrite lookup_insert_eq. reflexivity. Qed.

End RateLimit.

(** C9: starting with nothing stored under the key,
    [checkRateLimit(key, 5, 60000)] answers true on five calls each made
    less than 60000 ms after the ones before it, false on a sixth call made
    less than 60000 ms after those five, and true again on a call made when
    each of the five recorded times is at least 60000 ms old. *)
Theorem checkRateLimit_five_per_window (key : jsstring)
    (st : SecurityUtils.Storage) (t1 t2 t3 t4 t5 t6 t7 : Z) :
  st !! key = None ->
  recent 60000 t2 [t1] ->
  recent 60000 t3 [t1; t2] ->
  recent 60000 t4 [t1; t2; t3] ->
  recent 60000 t5 [t1; t2; t3; t4] ->
  recent 60000 t6 [t1; t2; t3; t4; t5] ->
  expired 60000 t7 [t1; t2; t3; t4; t5] ->
  fst (rate_limit_calls key 5 60000 [t1; t2; t3; t4; t5; t6; t7] st)
  = [true; true; true; true; true; false; true].
Proof.
  intros Hnone H2 H3 H4 H5 H6 H7.
  assert (H0 : SecurityUtils.getItem st key = []).
  { unfold SecurityUtils.getItem. rewrite Hnone. reflexivity. }
  cbn [rate_limit_calls].
  rewrite (checkRateLimit_allow key 5 60000 t1 st [])
    by (try assumption; try constructor; cbn; lia).
  rewrite (checkRateLimit_allow key 5 60000 t2 _ [t1])
    by (try apply getItem_insert; try assumption; cbn; lia).
  rewrite (checkRateLimit_allow key 5 60000 t3 _ [t1; t2])
    by (try apply getItem_insert; try assumption; cbn; lia).
  rewrite (checkRateLimit_allow key 5 60000 t4 _ [t1; t2; t3])
    by (try apply getItem_insert; try assumption; cbn; lia).
  rewrite (checkRateLimit_allow key 5 60000 t5 _ [t1; t2; t3; t4])
    by (try apply getItem_insert; try assumption; cbn; lia).
  rewrite (checkRateLimit_deny key 5 60000 t6 _ [t1; t2; t3; t4; t5])
    by (try apply getItem_insert; try assumption; cbn; lia).
  rewrite (checkRateLimit_reset key 5 60000 t7 _ [t1; t2; t3; t4; t5])
    by (try apply getItem_insert; try assumption; lia).
  reflexivity.
Qed.

Lemma checkRateLimit_five_per_window_witness :
  fst (rate_limit_calls (js "login") 5 60000
         [1000; 1010; 1020; 1030; 1040; 1050; 61040]%Z ∅)
  = [true; true; true; true; true; false; true].
Proof.
  apply (checkRateLimit_five_per_window (js "login") ∅
           1000 1010 1020 1030 1040 1050 61040);
    [ apply lookup_empty | .. ];
    unfold recent, expired; repeat constructor; lia.
Defined.

(** ** sanitizeFileName *)

Section GlobalReplace.

Variables (ignoreCase : bool) (r : regex) (repl : jsstring).

Lemma replace_scan_miss pre c t :
  match_at ignoreCase r (Pos pre (c :: t)) = None ->
  replace_scan ignoreCase r repl pre (c :: t) 0
  = c :: replace_scan ignoreCase r repl (c :: pre) t 0.
Proof. intros H. cbn [replace_scan]. rewrite H. reflexivity. Qed.

Lemma replace_scan_hit pre c t e n :
  match_at ignoreCase r (Pos pre (c :: t)) = Some e ->
  (length (c :: t) - length (rest e))%nat = S n ->
  replace_scan ignoreCase r repl pre (c :: t) 0
  = repl ++ replace_scan ignoreCase r repl (c :: pre) t n.
Proof. intros H Hn. cbn [replace_scan]. rewrite H, Hn. reflexivity. Qed.

Lemma replace_scan_end pre :
  match_at ignoreCase r (Pos pre []) = None ->
  replace_scan ignoreCase r repl pre [] 0 = [].
Proof. intros H. cbn [replace_scan]. rewrite H. reflexivity. Qed.

End GlobalReplace.

(** A one-character class matches exactly the characters in it. *)
Lemma match_at_class ignoreCase negated items pre s :
  match_at ignoreCase (Class negated items) (Pos pre s) =
    match s with
    | c :: t =>
        if in_class ignoreCase negated items c
        then Some (Pos (c :: pre) t) else None
    | [] => None
    end.
Proof. reflexivity. Qed.

(** Replacing every match of a one-character class maps over the string. *)
Lemma replace_scan_class ignoreCase negated items u pre s :
  replace_scan ignoreCase (Class negated items) [u] pre s 0 =
    List.map (fun c => if in_class ignoreCase negated items c then u else c) s.
Proof.
  revert pre. induction s as [|c t IH]; intros pre.
  - apply replace_scan_end. reflexivity.
  - cbn [List.map].
    destruct (in_class ignoreCase negated items c) eqn:Hc.
    + rewrite (replace_scan_hit _ _ _ pre c t (Pos (c :: pre) t) 0).
      * cbn [app]. rewrite IH. reflexivity.
      * rewrite match_at_class, Hc. reflexivity.
      * cbn [rest length]. lia.
    + rewrite replace_scan_miss by (rewrite match_at_class, Hc; reflexivity).
      rewrite IH. reflexivity.
Qed.

Lemma match_at_dot_dot pre s :
  match_at false SecurityUtils.dot_dot (Pos pre s) =
    match s with
    | c :: d :: t =>
        if (ch "." =? c) && (ch "." =? d)
        then Some (Pos (d :: c :: pre) t) else None
    | _ => None
    end.
Proof.
  destruct s as [|c [|d t]]; try reflexivity.
  - unfold match_at, SecurityUtils.dot_dot. cbn -[N.eqb].
    destruct (_ =? c); reflexivity.
  - unfold match_at, SecurityUtils.dot_dot. cbn -[N.eqb].
    destruct (_ =? c); [|reflexivity]. destruct (_ =? d); reflexivity.
Qed.

Lemma collapse_dots_step c d t :
  collapse_dots (c :: d :: t) =
    if (ch "." =? c) && (ch "." =? d)
    then ch "_" :: collapse_dots t
    else c :: collapse_dots (d :: t).
Proof. reflexivity. Qed.

(** Replacing every match of [dot_dot] by ["_"] is [collapse_dots]. *)
Lemma replace_scan_dot_dot n : forall s pre,
  (length s <= n)%nat ->
  replace_scan false SecurityUtils.dot_dot (js "_") pre s 0 = collapse_dots s.
Proof.
  induction n as [|n IH]; intros [|c [|d t]] pre Hlen;
    cbn [length] in Hlen; try lia.
  - apply replace_scan_end. apply match_at_dot_dot.
  - apply replace_scan_end. apply match_at_dot_dot.
  - rewrite replace_scan_miss by apply match_at_dot_dot.
    rewrite replace_scan_end by apply match_at_dot_dot. reflexivity.
  - rewrite collapse_dots_step.
    destruct ((ch "." =? c) && (ch "." =? d)) eqn:Hdots.
    + rewrite (replace_scan_hit _ _ _ pre c (d :: t) (Pos (d :: c :: pre) t) 1).
      * cbn [replace_scan]. rewrite IH by lia. reflexivity.
      * rewrite match_at_dot_dot, Hdots. reflexivity.
      * cbn [rest length]. lia.
    + rewrite replace_scan_miss by (rewrite match_at_dot_dot, Hdots; reflexivity).
      rewrite IH by (cbn [length]; lia). reflexivity.
Qed.

(** [collapse_dots] only ever emits a character it read or ["_"]. *)
Lemma collapse_dots_chars (P : N -> Prop) n : forall s,
  (length s <= n)%nat ->
  P (ch "_") -> Forall P s -> Forall P (collapse_dots s).
Proof.
  induction n as [|n IH]; intros [|c [|d t]] Hlen Hu Hs;
    cbn [length] in Hlen; try lia; try assumption.
  rewrite collapse_dots_step.
  inversion Hs as [|? ? Hc Hdt]; subst. inversion Hdt as [|? ? Hd Ht]; subst.
  destruct ((ch "." =? c) && (ch "." =? d)).
  - constructor; [assumption|]. apply IH; [lia|assumption|assumption].
  - constructor; [assumption|]. apply IH; [cbn [length]; lia|assumption|assumption].
Qed.

(** Whether a string starts with ["."]. *)
Lemma collapse_dots_head d t c' t' :
  collapse_dots (d :: t) = c' :: t' -> c' = ch "." -> d = ch ".".
Proof.
  destruct t as [|e t].
  - cbn [collapse_dots]. intros H. injection H as <- _. auto.
  - rewrite collapse_dots_step.
    destruct ((ch "." =? d) && (ch "." =? e)).
    + intros H. injection H as <- _. intros Habs. vm_compute in Habs.
      discriminate.
    + intros H. injection H as <- _. auto.
Qed.

(** The result of [collapse_dots] has no two dots in a row. *)
Lemma collapse_dots_no_pair n : forall s a b,
  (length s <= n)%nat ->
  collapse_dots s <> a ++ js ".." ++ b.
Proof.
  induction n as [|n IH]; intros [|c [|d t]] a b Hlen;
    cbn [length] in Hlen; try lia.
  - destruct a; discriminate.
  - destruct a; discriminate.
  - destruct a as [|x [|y a]]; discriminate.
  - rewrite collapse_dots_step.
    destruct ((ch "." =? c) && (ch "." =? d)) eqn:Hdots.
    + destruct a as [|x a]; [intros H; vm_compute in H; discriminate|].
      intros H. apply (IH t a b); [lia|]. injection H as _ H. exact H.
    + destruct a as [|x a].
      * intros H. change ([] ++ js ".." ++ b) with (ch "." :: ch "." :: b) in H.
        injection H as Hc Hrest.
        apply collapse_dots_head in Hrest; [|reflexivity].
        subst c d. discriminate Hdots.
      * intros H. apply (IH (d :: t) a b); [cbn [length]; lia|].
        injection H as _ H. exact H.
Qed.

(** A character that [unsafe_char] does not match is a file-name
    character. *)
Lemma unsafe_char_complement c :
  in_class false true
    [ CRange (ch "a") (ch "z"); CRange (ch "A") (ch "Z");
      CRange (ch "0") (ch "9"); CChar (ch "."); CChar (ch "-") ] c = false ->
  file_name_char c = true.
Proof.
  unfold in_class, file_name_char.
  cbn [existsb in_item char_eq andb]. rewrite !orb_false_r.
  rewrite (N.eqb_sym (ch ".") c), (N.eqb_sym (ch "-") c).
  destruct (between (ch "a") (ch "z") c), (between (ch "A") (ch "Z") c),
    (between (ch "0") (ch "9") c), (c =? ch "."), (c =? ch "-");
    cbn; intros H; try reflexivity; discriminate.
Qed.

(** C10: for every input, each character of [sanitizeFileName]'s result is
    an ASCII letter, a digit, ['.'], ['-'] or ['_'], and the result does not
    hold [".."] as a substring. *)
Theorem sanitizeFileName_safe (filename : jsstring) :
  Forall (fun c => file_name_char c = true)
    (SecurityUtils.sanitizeFileName filename)
  /\ ~ has_substring (js "..") (SecurityUtils.sanitizeFileName filename).
Proof.
  unfold SecurityUtils.sanitizeFileName, replace_all, SecurityUtils.unsafe_char.
  change (js "_") with [ch "_"].
  rewrite !replace_scan_class.
  set (mapped := List.map _ filename).
  change [ch "_"] with (js "_").
  rewrite !(replace_scan_dot_dot (length mapped)) by lia.
  split.
  - apply (collapse_dots_chars _ (length mapped)); [lia|reflexivity|].
    subst mapped. induction filename as [|c t IH]; constructor; [|exact IH].
    destruct (in_class _ _ _ c) eqn:Hc; [reflexivity|].
    apply unsafe_char_complement. exact Hc.
  - intros (a & b & H).
    apply (collapse_dots_no_pair (length mapped) mapped a b); [lia|exact H].
Qed.

(** ** isValidEmail *)

Section ClassRepetition.

Variable p : N -> bool.

(** A greedy repetition of a one-character matcher followed by [k]
    succeeds exactly when some prefix of characters satisfying [p] can be
    consumed so that [k] succeeds on what is left. *)
Lemma repeat_step_if (k : pos -> option pos) (n : nat) :
  forall pre s, (length s <= n)%nat ->
  repeat_matcher (step_if p) k n (Pos pre s) <> None
  <-> exists a b, s = a ++ b /\ forallb p a = true
                  /\ k (Pos (rev a ++ pre) b) <> None.
Proof.
  induction n as [|n IH]; intros pre s Hlen.
  - destruct s; [|cbn [length] in Hlen; lia]. cbn [repeat_matcher]. split.
    + intros H. exists [], []. auto.
    + intros (a & b & Hs & _ & Hk).
      symmetry in Hs. apply app_eq_nil in Hs as [-> ->]. exact Hk.
  - cbn [repeat_matcher]. unfold step_if at 1. cbn [rest before].
    destruct s as [|c t].
    + split.
      * intros H. exists [], []. auto.
      * intros (a & b & Hs & _ & Hk).
        symmetry in Hs. apply app_eq_nil in Hs as [-> ->]. exact Hk.
    + cbn [length] in Hlen.
      assert (Hshorter : (length t <? S (length t))%nat = true)
        by (apply Nat.ltb_lt; lia).
      cbn [length]. rewrite Hshorter.
      destruct (p c) eqn:Hc.
      * destruct (repeat_matcher (step_if p) k n (Pos (c :: pre) t))
          as [e|] eqn:Hiter.
        -- split; [|discriminate]. intros _.
           assert (Hsome : repeat_matcher (step_if p) k n (Pos (c :: pre) t)
                           <> None) by congruence.
           apply IH in Hsome as (a & b & -> & Ha & Hk); [|lia].
           exists (c :: a), b. cbn [forallb rev app]. rewrite Hc, Ha.
           rewrite <- app_assoc. auto.
        -- split.
           ++ intros H. exists [], (c :: t). auto.
           ++ intros (a & b & Hs & Ha & Hk). destruct a as [|c' a].
              ** cbn [app rev] in *. subst b. exact Hk.
              ** exfalso. injection Hs as <- ->.
                 cbn [forallb] in Ha. apply andb_prop in Ha as [_ Ha].
                 assert (Hsome : repeat_matcher (step_if p) k n
                                   (Pos (c :: pre) (a ++ b)) <> None).
                 { apply IH; [lia|]. exists a, b.
                   cbn [rev] in Hk. rewrite <- app_assoc in Hk. auto. }
                 contradiction.
      * split.
        -- intros H. exists [], (c :: t). auto.
        -- intros (a & b & Hs & Ha & Hk). destruct a as [|c' a].
           ++ cbn [app rev] in *. subst b. exact Hk.
           ++ injection Hs as <- ->. cbn [forallb] in Ha.
              rewrite Hc in Ha. discriminate.
Qed.

End ClassRepetition.

Section Sequencing.

Variables (ignoreCase : bool) (k : pos -> option pos).

(** [C+ r] for a one-character class [C]. *)
Lemma rmatch_plus_class negated items r pre s :
  rmatch ignoreCase (Seq (Plus (Class negated items)) r) (Pos pre s) k
  <> None
  <-> exists a b,
        a <> [] /\ s = a ++ b
        /\ forallb (in_class ignoreCase negated items) a = true
        /\ rmatch ignoreCase r (Pos (rev a ++ pre) b) k <> None.
Proof.
  set (p := in_class ignoreCase negated items).
  change (rmatch ignoreCase (Seq (Plus (Class negated items)) r)
            (Pos pre s) k)
    with (step_if p (Pos pre s)
            (fun z => repeat_matcher (step_if p)
                        (fun y => rmatch ignoreCase r y k)
                        (length (rest z)) z)).
  unfold step_if at 1. cbn [rest before].
  destruct s as [|c t].
  - split; [congruence|]. intros (a & b & Ha & Hs & _).
    symmetry in Hs. apply app_eq_nil in Hs as [-> _]. congruence.
  - destruct (p c) eqn:Hc.
    + rewrite repeat_step_if by lia. split.
      * intros (a & b & -> & Ha & Hk). exists (c :: a), b.
        cbn [forallb rev app]. rewrite Hc, Ha, <- app_assoc.
        repeat split; [discriminate|exact Hk].
      * intros (a & b & Hne & Hs & Ha & Hk).
        destruct a as [|c' a]; [congruence|].
        injection Hs as <- ->. cbn [forallb] in Ha.
        apply andb_prop in Ha as [_ Ha].
        exists a, b. cbn [rev] in Hk. rewrite <- app_assoc in Hk. auto.
    + split; [congruence|]. intros (a & b & Hne & Hs & Ha & _).
      destruct a as [|c' a]; [congruence|].
      injection Hs as <- ->. cbn [forallb] in Ha.
      rewrite Hc in Ha. discriminate.
Qed.

(** A literal character followed by [r]. *)
Lemma rmatch_char_then c r pre s :
  rmatch ignoreCase (Seq (Char c) r) (Pos pre s) k <> None
  <-> exists c' t,
        s = c' :: t /\ char_eq ignoreCase c c' = true
        /\ rmatch ignoreCase r (Pos (c' :: pre) t) k <> None.
Proof.
  change (rmatch ignoreCase (Seq (Char c) r) (Pos pre s) k)
    with (step_if (char_eq ignoreCase c) (Pos pre s)
            (fun y => rmatch ignoreCase r y k)).
  unfold step_if. cbn [rest before].
  destruct s as [|c' t].
  - split; [congruence|]. intros (? & ? & ? & _). discriminate.
  - destruct (char_eq ignoreCase c c') eqn:Hc.
    + split.
      * intros H. exists c', t. auto.
      * intros (? & ? & Hs & _ & H). injection Hs as <- <-. exact H.
    + split; [congruence|].
      intros (? & ? & Hs & Hc' & _). injection Hs as <- <-. congruence.
Qed.

(** A pattern that starts with [^] only matches at the start. *)
Lemma exec_from_anchored r s : forall c pre,
  exec_from ignoreCase (Seq Bol r) (c :: pre) s = None.
Proof.
  induction s as [|d t IH]; intros c pre.
  - reflexivity.
  - cbn [exec_from]. change (match_at ignoreCase (Seq Bol r)
                               (Pos (c :: pre) (d :: t))) with (@None pos).
    apply IH.
Qed.

Lemma test_anchored r s :
  test ignoreCase (Seq Bol r) s = true
  <-> match_at ignoreCase r (Pos [] s) <> None.
Proof.
  unfold test. destruct s as [|c t]; cbn [exec_from];
    change (match_at ignoreCase (Seq Bol r) (Pos [] ?x))
      with (match_at ignoreCase r (Pos [] x)).
  - destruct (match_at ignoreCase r (Pos [] [])); split; congruence.
  - destruct (match_at ignoreCase r (Pos [] (c :: t))).
    + split; congruence.
    + rewrite exec_from_anchored. split; congruence.
Qed.

End Sequencing.

(** The class of [emailRegex]: neither white space nor ["@"]. *)
Lemma email_class_spec c :
  in_class false true [CSpace; CChar (ch "@")] c = true
  <-> is_space c = false /\ c <> ch "@".
Proof.
  unfold in_class. cbn [existsb in_item char_eq]. rewrite orb_false_r.
  destruct (is_space c); cbn [orb xorb negb].
  - split; [discriminate|]. intros [H _]. discriminate.
  - destruct (N.eqb_spec (ch "@") c) as [<-|Hne]; cbn [xorb].
    + split; [discriminate|]. intros [_ H]. congruence.
    + split; [|reflexivity]. intros _. split; [reflexivity|congruence].
Qed.

Lemma email_class_run a :
  forallb (in_class false true [CSpace; CChar (ch "@")]) a = true
  <-> Forall (fun c => is_space c = false) a
      /\ List.count_occ N.eq_dec a (ch "@") = 0%nat.
Proof.
  induction a as [|c a IH].
  - cbn. split; auto.
  - cbn [forallb]. rewrite andb_true_iff, IH, email_class_spec. split.
    + intros ((Hsp & Hne) & Hall & Hcount). split; [constructor; assumption|].
      rewrite count_occ_cons_neq by assumption. exact Hcount.
    + intros (Hall & Hcount). inversion Hall as [|? ? Hsp Hall']; subst.
      destruct (N.eq_dec c (ch "@")) as [->|Hne].
      * rewrite count_occ_cons_eq in Hcount by reflexivity. discriminate.
      * rewrite count_occ_cons_neq in Hcount by assumption. auto.
Qed.

(** What [emailRegex] matches from the start of a string. *)
Lemma emailRegex_match s :
  match_at false SecurityUtils.emailRegex (Pos [] s) <> None
  <-> exists a b c,
        s = a ++ js "@" ++ b ++ js "." ++ c
        /\ a <> [] /\ b <> [] /\ c <> []
        /\ forallb (in_class false true [CSpace; CChar (ch "@")]) a = true
        /\ forallb (in_class false true [CSpace; CChar (ch "@")]) b = true
        /\ forallb (in_class false true [CSpace; CChar (ch "@")]) c = true.
Proof.
  unfold match_at, SecurityUtils.emailRegex. cbn [seq].
  change (rmatch false (Seq Bol ?r) (Pos [] s) Some)
    with (rmatch false r (Pos [] s) Some).
  split.
  - intros H.
    apply rmatch_plus_class in H as (a & s1 & Ha & -> & Hpa & H).
    apply rmatch_char_then in H as (c1 & s2 & -> & Hc1 & H).
    apply rmatch_plus_class in H as (b & s3 & Hb & -> & Hpb & H).
    apply rmatch_char_then in H as (c2 & s4 & -> & Hc2 & H).
    apply rmatch_plus_class in H as (c & s5 & Hc & -> & Hpc & H).
    destruct s5 as [|x s5]; [|cbn in H; congruence].
    apply N.eqb_eq in Hc1, Hc2. subst c1 c2.
    exists a, b, c. rewrite app_nil_r. repeat split; assumption.
  - intros (a & b & c & -> & Ha & Hb & Hc & Hpa & Hpb & Hpc).
    apply rmatch_plus_class. exists a, (js "@" ++ b ++ js "." ++ c).
    repeat split; try assumption.
    apply rmatch_char_then. exists (ch "@"), (b ++ js "." ++ c).
    repeat split.
    apply rmatch_plus_class. exists b, (js "." ++ c).
    repeat split; try assumption.
    apply rmatch_char_then. exists (ch "."), c.
    repeat split.
    apply rmatch_plus_class. exists c, [].
    rewrite app_nil_r. repeat split; try assumption. cbn. discriminate.
Qed.

(** C8: [isValidEmail s] is true exactly when [s] is a non-empty run of
    non-whitespace characters, ["@"], such a run, ["."], such a run, with
    ["@"] occurring once in [s]; it is true of ["a@b.co"] and false of
    ["a@b"], ["a.b@"] and ["a b@c.d"]. *)
Theorem isValidEmail_shape :
  (forall s, SecurityUtils.isValidEmail s = true <-> email_shape s)
  /\ SecurityUtils.isValidEmail (js "a@b.co") = true
  /\ SecurityUtils.isValidEmail (js "a@b") = false
  /\ SecurityUtils.isValidEmail (js "a.b@") = false
  /\ SecurityUtils.isValidEmail (js "a b@c.d") = false.
Proof.
  split; [|repeat split; vm_compute; reflexivity].
  intros s. unfold SecurityUtils.isValidEmail.
  unfold SecurityUtils.emailRegex at 1. cbn [seq].
  rewrite test_anchored.
  change (match_at false _ (Pos [] s))
    with (match_at false (Seq Bol (seq [
            Plus (Class true [CSpace; CChar (ch "@")]); Char (ch "@");
            Plus (Class true [CSpace; CChar (ch "@")]); Char (ch ".");
            Plus (Class true [CSpace; CChar (ch "@")]); Eol])) (Pos [] s)).
  change (Seq Bol _) with SecurityUtils.emailRegex.
  rewrite emailRegex_match. unfold email_shape, non_space_run. split.
  - intros (a & b & c & -> & Ha & Hb & Hc & Hpa & Hpb & Hpc).
    apply email_class_run in Hpa as [Hsa Hca], Hpb as [Hsb Hcb],
      Hpc as [Hsc Hcc].
    exists a, b, c. repeat split; try assumption.
    rewrite !count_occ_app, Hca, Hcb, Hcc. reflexivity.
  - intros (a & b & c & -> & [Ha Hsa] & [Hb Hsb] & [Hc Hsc] & Hcount).
    rewrite !count_occ_app in Hcount.
    change (List.count_occ N.eq_dec (js "@") (ch "@")) with 1%nat in Hcount.
    change (List.count_occ N.eq_dec (js ".") (ch "@")) with 0%nat in Hcount.
    exists a, b, c. repeat split; try assumption;
      apply email_class_run; split; try assumption; lia.
Qed.

(** ** createPoll *)

Lemma truthy_jslength (x : jsstring) : (jslength x >? 0)%Z = truthy x.
Proof. destruct x; reflexivity. Qed.

Lemma truthy_trim (x : jsstring) : truthy (trim x) = true -> truthy x = true.
Proof. destruct x; [discriminate|reflexivity]. Qed.

(** Dropping the entries that are empty once trimmed, before or after
    trimming, comes to the same. *)
Lemma trim_nonempty_entries (raw : list jsstring) :
  List.map trim
    (List.filter (fun opt => (jslength (trim opt) >? 0)%Z)
       (List.filter truthy raw))
  = List.filter truthy (List.map trim raw).
Proof.
  induction raw as [|x raw IH]; [reflexivity|].
  cbn [List.filter List.map].
  destruct (truthy (trim x)) eqn:Htrim.
  - rewrite (truthy_trim x Htrim). cbn [List.filter List.map].
    rewrite truthy_jslength, Htrim. cbn [List.map]. rewrite IH. reflexivity.
  - destruct (truthy x); [|exact IH].
    cbn [List.filter]. rewrite truthy_jslength, Htrim. exact IH.
Qed.

Lemma jsstring_eqb_sym (a b : jsstring) : jsstring_eqb a b = jsstring_eqb b a.
Proof.
  destruct (jsstring_eqb b a) eqn:E.
  - apply jsstring_eqb_eq in E. subst. apply jsstring_eqb_refl.
  - destruct (jsstring_eqb a b) eqn:E'; [|reflexivity].
    apply jsstring_eqb_eq in E'. subst. rewrite jsstring_eqb_refl in E.
    discriminate.
Qed.

(** [indexOf] finds an entry at the end of a prefix exactly when the
    prefix does not hold it. *)
Lemma indexOf_first (x : jsstring) (t : list jsstring) :
  forall earlier,
    (indexOf (earlier ++ x :: t) x =? Z.of_nat (length earlier))%Z
    = negb (existsb (jsstring_eqb x) earlier).
Proof.
  induction earlier as [|y earlier IH].
  - cbn. rewrite jsstring_eqb_refl. reflexivity.
  - cbn [app indexOf existsb length]. rewrite (jsstring_eqb_sym x y).
    destruct (jsstring_eqb y x).
    + cbn [orb negb]. apply Z.eqb_neq. lia.
    + cbn [orb]. rewrite <- IH.
      destruct (Z.ltb_spec (indexOf (earlier ++ x :: t) x) 0) as [Hneg|Hpos].
      * transitivity false; [apply Z.eqb_neq; lia|].
        symmetry. apply Z.eqb_neq. lia.
      * destruct (Z.eqb_spec (indexOf (earlier ++ x :: t) x)
                    (Z.of_nat (length earlier))) as [Heq|Hne].
        -- apply Z.eqb_eq. lia.
        -- apply Z.eqb_neq. lia.
Qed.

(** The [indexOf] filter of [createPoll] is first-seen de-duplication. *)
Lemma filter_from_dedupe (l : list jsstring) :
  forall earlier,
    filter_from (fun opt index self => (indexOf self opt =? index)%Z)
      (earlier ++ l) (Z.of_nat (length earlier)) l
    = dedupe_after earlier l.
Proof.
  induction l as [|x t IH]; intros earlier; [reflexivity|].
  cbn [filter_from dedupe_after]. rewrite indexOf_first.
  replace (earlier ++ x :: t) with ((earlier ++ [x]) ++ t)
    by (rewrite <- app_assoc; reflexivity).
  replace (Z.of_nat (length earlier) + 1)%Z
    with (Z.of_nat (length (earlier ++ [x])))
    by (rewrite length_app; cbn [length]; lia).
  rewrite IH. destruct (existsb (jsstring_eqb x) earlier); reflexivity.
Qed.

(** The options [createPoll] keeps are the normalized options of the
    specification. *)
Lemma valid_options_normalize (formData : FormData) :
  valid_options formData
  = normalize_options (getAll formData (js "options")).
Proof.
  unfold valid_options, normalize_options, supplied_options, filter_indexed.
  rewrite trim_nonempty_entries.
  apply (filter_from_dedupe _ []).
Qed.

Lemma existsb_jsstring_eqb (x : jsstring) (l : list jsstring) :
  existsb (jsstring_eqb x) l = true <-> x ∈ l.
Proof.
  induction l as [|y l IH]; cbn [existsb].
  - split; [discriminate|]. intros H. inversion H.
  - rewrite orb_true_iff, IH, jsstring_eqb_eq, elem_of_cons. reflexivity.
Qed.

(** De-duplication keeps a list that has no repetition and shares nothing
    with the earlier entries. *)
Lemma dedupe_after_NoDup (l : list jsstring) :
  forall earlier, NoDup (earlier ++ l) -> dedupe_after earlier l = l.
Proof.
  induction l as [|x t IH]; intros earlier Hnodup; [reflexivity|].
  cbn [dedupe_after].
  assert (Hfresh : existsb (jsstring_eqb x) earlier = false).
  { destruct (existsb (jsstring_eqb x) earlier) eqn:E; [|reflexivity].
    apply existsb_jsstring_eqb in E.
    apply NoDup_app in Hnodup as (_ & Hdisjoint & _).
    exfalso. apply (Hdisjoint x E). left. }
  rewrite Hfresh, IH; [reflexivity|].
  rewrite <- app_assoc. exact Hnodup.
Qed.

(** C4: whenever the options of the form, once trimmed, rid of empty
    entries and de-duplicated, are fewer than two, [createPoll] answers with
    a validation error and leaves the world as it was: no request has been
    sent to the backend, and no row inserted. *)
Theorem createPoll_too_few_options (formData : FormData)
    (env : Env) (w : World) :
  (length (normalize_options (getAll formData (js "options"))) < 2)%nat ->
  exists message,
    createPoll formData env w = (Err ValidationError message, w).
Proof.
  intros Hfew. rewrite <- valid_options_normalize in Hfew.
  unfold createPoll. cbv zeta.
  fold (supplied_options formData). fold (valid_options formData).
  destruct (get formData (js "question")) as [question|];
    [|eexists; reflexivity].
  destruct (negb (truthy question) || (jslength (trim question) =? 0)%Z);
    [eexists; reflexivity|].
  destruct (jslength (trim question) >? 500)%Z; [eexists; reflexivity|].
  destruct (jslength (supplied_options formData) <? 2)%Z;
    [eexists; reflexivity|].
  destruct (jslength (supplied_options formData) >? 10)%Z;
    [eexists; reflexivity|].
  destruct (Z.ltb_spec (jslength (valid_options formData)) 2) as [_|Hge];
    [eexists; reflexivity|].
  unfold jslength in Hge. lia.
Qed.

Lemma createPoll_too_few_options_witness :
  exists message,
    createPoll [ (js "question", js "Which?");
                 (js "options", js "same"); (js "options", js " same ");
                 (js "options", js "   ") ] alice_env empty_world
    = (Err ValidationError message, empty_world).
Proof.
  apply createPoll_too_few_options. vm_compute. lia.
Defined.

Lemma filter_all {A} (f : A -> bool) (l : list A) :
  Forall (fun x => f x = true) l -> List.filter f l = l.
Proof.
  induction 1 as [|x l Hx _ IH]; [reflexivity|].
  cbn [List.filter]. rewrite Hx, IH. reflexivity.
Qed.

Lemma truthy_nonempty (x : jsstring) : x <> [] -> truthy x = true.
Proof. destruct x; [congruence|reflexivity]. Qed.

Lemma Forall_weaken {A} (P Q : A -> Prop) (l : list A) :
  (forall x, P x -> Q x) -> Forall P l -> Forall Q l.
Proof. intros HPQ. induction 1; constructor; auto. Qed.

Lemma existsb_none {A} (f : A -> bool) (l : list A) :
  Forall (fun x => f x = false) l -> existsb f l = false.
Proof.
  induction 1 as [|x l Hx _ IH]; [reflexivity|].
  cbn [existsb]. rewrite Hx, IH. reflexivity.
Qed.

Lemma Forall_map_of {A B} (f : A -> B) (P : B -> Prop) (l : list A) :
  Forall (fun x => P (f x)) l -> Forall P (List.map f l).
Proof. induction 1; constructor; auto. Qed.

Lemma NoDup_pair (a b : jsstring) : a <> b -> NoDup [a; b].
Proof.
  intros Hne. apply NoDup_cons. split.
  - intros Hin. apply list_elem_of_singleton in Hin. contradiction.
  - apply NoDup_singleton.
Qed.

Section CreatePollWellFormed.

Variables (formData : FormData) (question : jsstring)
          (options : list jsstring).

Hypothesis Hquestion : get formData (js "question") = Some question.
Hypothesis Hoptions : getAll formData (js "options") = options.
Hypothesis Hnonempty : trim question <> [].
Hypothesis Hlength : (length (trim question) <= 500)%nat.
Hypothesis Hcount : (2 <= length options <= 10)%nat.
Hypothesis Heach :
  Forall (fun opt => trim opt <> [] /\ (length (trim opt) <= 200)%nat)
    options.
Hypothesis Hdistinct : NoDup (List.map trim options).

Lemma well_formed_supplied : supplied_options formData = options.
Proof using Hoptions Heach.
  unfold supplied_options. rewrite Hoptions. apply filter_all.
  revert Heach. apply Forall_weaken. intros opt [Hopt _].
  apply truthy_trim, truthy_nonempty, Hopt.
Qed.

Lemma well_formed_valid : valid_options formData = List.map trim options.
Proof using Hoptions Heach Hdistinct.
  rewrite valid_options_normalize, Hoptions. unfold normalize_options.
  rewrite filter_all.
  - apply dedupe_after_NoDup. exact Hdistinct.
  - apply Forall_map_of. revert Heach. apply Forall_weaken.
    intros opt [Hopt _]. apply truthy_nonempty, Hopt.
Qed.

Lemma well_formed_short :
  existsb (fun opt => (jslength opt >? 200)%Z) (List.map trim options)
  = false.
Proof using Heach.
  apply existsb_none, Forall_map_of. revert Heach. apply Forall_weaken.
  intros opt [_ Hopt]. unfold jslength.
  rewrite Z.gtb_ltb. apply Z.ltb_ge. clear -Hopt. lia.
Qed.

(** On well-formed input [createPoll] passes its checks: what is left is
    the identity lookup and the insert of the tag-stripped fields. *)
Lemma createPoll_well_formed (env : Env) (w : World) :
  createPoll formData env w =
    (auth <- auth_getUser ;;
     match snd auth with
     | Some message => ret (Err BackendError message)
     | None =>
     match fst auth with
     | None =>
         ret (Err AuthenticationRequired
                (js "You must be logged in to create a poll."))
     | Some user =>
     error <- polls_insert (user_id_of user) (strip_tags (trim question))
                (List.map strip_tags (List.map trim options)) ;;
     match error with
     | Some message => ret (Err BackendError message)
     | None => revalidatePath (js "/polls") ;;; ret Ok
     end end end) env w.
Proof using All.
  unfold createPoll. cbv zeta.
  fold (supplied_options formData). fold (valid_options formData).
  rewrite Hquestion, well_formed_supplied, well_formed_valid.
  rewrite (truthy_nonempty question)
    by (intros ->; apply Hnonempty; reflexivity).
  cbn [negb orb]. unfold jslength at 1 2 3 4 5. rewrite length_map.
  destruct (Z.eqb_spec (Z.of_nat (length (trim question))) 0) as [H0|_];
    [destruct (trim question); [congruence|discriminate H0]|].
  destruct (Z.gtb_spec (Z.of_nat (length (trim question))) 500); [lia|].
  destruct (Z.ltb_spec (Z.of_nat (length options)) 2); [lia|].
  destruct (Z.gtb_spec (Z.of_nat (length options)) 10); [lia|].
  rewrite well_formed_short.
  unfold bind, auth_getUser. cbn [fst snd]. reflexivity.
Qed.

End CreatePollWellFormed.

(** [sanitizeHTML] goes on where the tag stripping of [createPoll] stops. *)
Remark sanitizeHTML_after_strip_tags (input : jsstring) :
  SecurityUtils.sanitizeHTML input =
    replace_all true SecurityUtils.event_handler []
      (replace_all true SecurityUtils.javascript_scheme []
         (strip_tags input)).
Proof. reflexivity. Qed.

(** C2, as amended: for a question that is non-empty and at most 500
    characters once trimmed, and 2 to 10 options that once trimmed are
    non-empty, pairwise distinct and at most 200 characters each,
    [createPoll] with an authenticated identity and a backend that accepts
    the insert answers without error and adds one poll, owned by that
    identity, whose question and options are the trimmed inputs with script
    blocks and then all remaining tags removed. *)
Theorem createPoll_persists_stripped (formData : FormData)
    (question : jsstring) (options : list jsstring) (u : User)
    (env : Env) (w : World) :
  get formData (js "question") = Some question ->
  getAll formData (js "options") = options ->
  trim question <> [] ->
  (length (trim question) <= 500)%nat ->
  (2 <= length options <= 10)%nat ->
  Forall (fun opt => trim opt <> [] /\ (length (trim opt) <= 200)%nat)
    options ->
  NoDup (List.map trim options) ->
  session_user env = Some u ->
  session_error env = None ->
  failure env (PollsInsert (user_id_of u) (strip_tags (trim question))
                 (List.map strip_tags (List.map trim options))) = None ->
  createPoll formData env w =
    (Ok, created env w u (strip_tags (trim question))
           (List.map strip_tags (List.map trim options))).
Proof.
  intros Hq Hopts Hne Hlen Hcount Heach Hdistinct Huser Herr Hok.
  rewrite (createPoll_well_formed formData question options) by assumption.
  unfold bind, auth_getUser, polls_insert, table_request, revalidatePath, ret.
  cbn [fst snd]. rewrite Herr, Huser, Hok.
  unfold created. cbn. rewrite <- app_assoc. reflexivity.
Qed.

Lemma createPoll_persists_stripped_witness :
  createPoll sample_form alice_env empty_world =
    (Ok, {| polls := [ {| poll_id := js "p9"; poll_user_id := js "alice";
                          poll_question := js "Red or blue?";
                          poll_options := [js "red"; js "blue"] |} ];
            votes := [];
            sent := [ AuthGetUser;
                      PollsInsert (js "alice") (js "Red or blue?")
                        [js "red"; js "blue"] ];
            revalidated := [js "/polls"] |}).
Proof.
  assert (Hne : trim (js "Red or blue?") <> []) by (vm_compute; discriminate).
  assert (Hlen : (length (trim (js "Red or blue?")) <= 500)%nat)
    by (vm_compute; lia).
  assert (Hcount : (2 <= length [js "red"; js "blue"] <= 10)%nat)
    by (cbn; lia).
  assert (Heach : Forall (fun opt => trim opt <> []
                                     /\ (length (trim opt) <= 200)%nat)
                    [js "red"; js "blue"]).
  { repeat constructor; vm_compute; try discriminate; lia. }
  assert (Hdistinct : NoDup (List.map trim [js "red"; js "blue"])).
  { vm_compute. apply NoDup_pair. discriminate. }
  exact (createPoll_persists_stripped sample_form (js "Red or blue?")
           [js "red"; js "blue"] alice alice_env empty_world
           eq_refl eq_refl Hne Hlen Hcount Heach Hdistinct
           eq_refl eq_refl eq_refl).
Defined.

(** With [sanitizeHTML] as the sanitizer the same statement does not hold:
    for the question ["Click: javascript:x"] the poll row holds the
    question unchanged, while [sanitizeHTML] turns it into ["Click: x"]. *)
Lemma createPoll_not_sanitizeHTML :
  ~ createPoll_persists SecurityUtils.sanitizeHTML.
Proof.
  intros Hclaim.
  assert (Hne : trim (js "Click: javascript:x") <> [])
    by (vm_compute; discriminate).
  assert (Hlen : (length (trim (js "Click: javascript:x")) <= 500)%nat)
    by (vm_compute; lia).
  assert (Hcount : (2 <= length [js "yes"; js "no"] <= 10)%nat)
    by (cbn; lia).
  assert (Heach : Forall (fun opt => trim opt <> []
                                     /\ (length (trim opt) <= 200)%nat)
                    [js "yes"; js "no"]).
  { repeat constructor; vm_compute; try discriminate; lia. }
  assert (Hdistinct : NoDup (List.map trim [js "yes"; js "no"])).
  { vm_compute. apply NoDup_pair. discriminate. }
  specialize (Hclaim scheme_form (js "Click: javascript:x")
                [js "yes"; js "no"] alice alice_env empty_world
                eq_refl eq_refl Hne Hlen Hcount Heach Hdistinct
                eq_refl eq_refl eq_refl).
  vm_compute in Hclaim. discriminate Hclaim.
Qed.

(** ** Global replace, in general *)

Section ReplaceOneCharacter.

Variables (ignoreCase : bool) (p : N -> bool) (r : regex) (repl : jsstring).

Hypothesis one_character : forall pre s,
  match_at ignoreCase r (Pos pre s) =
    match s with
    | c :: t => if p c then Some (Pos (c :: pre) t) else None
    | [] => None
    end.

(** Replacing every match of a pattern that matches single characters
    works character by character. *)
Lemma replace_scan_one_character pre s :
  replace_scan ignoreCase r repl pre s 0 =
    flat_map (fun c => if p c then repl else [c]) s.
Proof using one_character.
  revert pre. induction s as [|c t IH]; intros pre.
  - apply replace_scan_end. apply one_character.
  - cbn [flat_map]. destruct (p c) eqn:Hc.
    + rewrite (replace_scan_hit _ _ _ pre c t (Pos (c :: pre) t) 0).
      * rewrite IH. reflexivity.
      * rewrite one_character, Hc. reflexivity.
      * cbn [rest length]. clear. lia.
    + rewrite replace_scan_miss by (rewrite one_character, Hc; reflexivity).
      rewrite IH. reflexivity.
Qed.

End ReplaceOneCharacter.

Lemma replace_all_class ignoreCase negated items repl s :
  replace_all ignoreCase (Class negated items) repl s =
    flat_map (fun c => if in_class ignoreCase negated items c
                       then repl else [c]) s.
Proof.
  apply replace_scan_one_character. intros pre s'. apply match_at_class.
Qed.

Lemma replace_all_char ignoreCase a repl s :
  replace_all ignoreCase (Char a) repl s =
    flat_map (fun c => if char_eq ignoreCase a c then repl else [c]) s.
Proof. apply replace_scan_one_character. reflexivity. Qed.

(** With an empty replacement a global replace only deletes. *)
Lemma replace_scan_deletes ignoreCase r s : forall pre skip,
  replace_scan ignoreCase r [] pre s skip `sublist_of` s.
Proof.
  induction s as [|c t IH]; intros pre skip.
  - cbn [replace_scan]. destruct skip; [|constructor].
    destruct (match_at _ _ _); constructor.
  - cbn [replace_scan]. destruct skip as [|n].
    + destruct (match_at _ _ _) as [e|].
      * destruct (_ - _)%nat; cbn [app].
        -- apply sublist_skip, IH.
        -- apply sublist_cons, IH.
      * apply sublist_skip, IH.
    + apply sublist_cons, IH.
Qed.

Lemma replace_all_deletes ignoreCase r s :
  replace_all ignoreCase r [] s `sublist_of` s.
Proof. apply replace_scan_deletes. Qed.

(** ** escapeSQL *)

Lemma flat_map_flat_map {A B C} (f : A -> list B) (g : B -> list C) l :
  flat_map g (flat_map f l) = flat_map (fun x => flat_map g (f x)) l.
Proof.
  induction l as [|x l IH]; [reflexivity|].
  cbn [flat_map]. rewrite flat_map_app, IH. reflexivity.
Qed.

Lemma flat_map_pointwise {A B} (f g : A -> list B) l :
  (forall x, f x = g x) -> flat_map f l = flat_map g l.
Proof.
  intros Hfg. induction l as [|x l IH]; [reflexivity|].
  cbn [flat_map]. rewrite Hfg, IH. reflexivity.
Qed.

Lemma escapeSQL_flat_map (input : jsstring) :
  SecurityUtils.escapeSQL input = flat_map escape_char input.
Proof.
  unfold SecurityUtils.escapeSQL, SecurityUtils.double_quote,
    SecurityUtils.single_quote, SecurityUtils.control_char.
  rewrite !replace_all_char, replace_all_class, !flat_map_flat_map.
  apply flat_map_pointwise. intros c.
  unfold escape_char, is_control, in_class, char_eq.
  cbn [existsb in_item char_eq xorb].
  destruct (0 =? c); [reflexivity|].
  destruct (10 =? c); [reflexivity|].
  destruct (13 =? c); [reflexivity|].
  destruct (8 =? c); [reflexivity|].
  destruct (9 =? c); [reflexivity|].
  destruct (26 =? c); [reflexivity|].
  destruct (24 =? c); [reflexivity|].
  destruct (22 =? c); [reflexivity|].
  destruct (1 =? c); [reflexivity|].
  cbn [orb flat_map app].
  destruct (ch "'" =? c) eqn:Eq.
  - reflexivity.
  - cbn [flat_map app]. destruct (34 =? c); reflexivity.
Qed.

(** X1: [escapeSQL] works character by character: it drops the nine control
    characters, doubles each single and each double quote, and copies every
    other character. *)
Theorem escapeSQL_per_character (input : jsstring) :
  SecurityUtils.escapeSQL input = flat_map escape_char input.
Proof. apply escapeSQL_flat_map. Qed.

(** A character that is kept comes first in its image. *)
Lemma escape_char_kept (c : N) :
  is_control c = false ->
  escape_char c = c :: (if (ch "'" =? c) || (34 =? c) then [c] else []).
Proof.
  intros Hc. unfold escape_char. rewrite Hc.
  destruct (N.eqb_spec (ch "'") c) as [<-|_]; [reflexivity|].
  destruct (N.eqb_spec 34 c) as [<-|_]; reflexivity.
Qed.

(** X2: on strings without the nine control characters [escapeSQL] loses
    nothing: two such strings with the same image are equal. *)
Theorem escapeSQL_injective (s t : jsstring) :
  Forall (fun c => is_control c = false) s ->
  Forall (fun c => is_control c = false) t ->
  SecurityUtils.escapeSQL s = SecurityUtils.escapeSQL t ->
  s = t.
Proof.
  rewrite !escapeSQL_flat_map. intros Hs. revert t.
  induction Hs as [|c s Hc _ IH]; intros t Ht Heq.
  - destruct Ht as [|d t Hd _]; [reflexivity|].
    cbn [flat_map] in Heq. rewrite (escape_char_kept d Hd) in Heq.
    discriminate Heq.
  - destruct Ht as [|d t Hd Ht].
    + cbn [flat_map] in Heq. rewrite (escape_char_kept c Hc) in Heq.
      discriminate Heq.
    + cbn [flat_map] in Heq.
      rewrite (escape_char_kept c Hc), (escape_char_kept d Hd) in Heq.
      injection Heq as -> Heq. f_equal. apply IH; [exact Ht|].
      apply app_inv_head in Heq. exact Heq.
Qed.

Lemma escapeSQL_injective_witness :
  SecurityUtils.escapeSQL (js "O'Neil") = SecurityUtils.escapeSQL (js "O'Neil")
  /\ js "O'Neil" = js "O'Neil".
Proof.
  split; [reflexivity|].
  apply escapeSQL_injective; [| |reflexivity];
    repeat constructor.
Defined.

(** ** The matcher never moves backwards *)

Lemma rmatch_continues ignoreCase r : forall x k e,
  rmatch ignoreCase r x k = Some e ->
  exists y, k y = Some e /\ (length (rest y) <= length (rest x))%nat.
Proof.
  assert (Hstep : forall p x k e,
            step_if p x k = Some e ->
            exists y, k y = Some e
                      /\ (length (rest y) < length (rest x))%nat).
  { intros p [pre s] k e. unfold step_if. cbn [rest before].
    destruct s as [|c t]; [discriminate|]. destruct (p c); [|discriminate].
    intros H. eexists. split; [exact H|]. cbn [rest length]. lia. }
  induction r as [|c|negated items|r1 IH1 r2 IH2|r1 IH1|r1 IH1| | |];
    intros x k e H; cbn [rmatch] in H.
  - exists x. auto.
  - apply Hstep in H as (y & Hy & Hlt). exists y. split; [exact Hy|lia].
  - apply Hstep in H as (y & Hy & Hlt). exists y. split; [exact Hy|lia].
  - apply IH1 in H as (y1 & H & Hle1). apply IH2 in H as (y & Hy & Hle2).
    exists y. split; [exact Hy|lia].
  - remember (length (rest x)) as n eqn:Hn in H. clear Hn. revert x H.
    induction n as [|n IHn]; intros x H; cbn [repeat_matcher] in H.
    + exists x. auto.
    + destruct (rmatch ignoreCase r1 x _) as [e'|] eqn:Hiter.
      * injection H as ->. apply IH1 in Hiter as (y1 & Hy1 & _).
        destruct (Nat.ltb_spec (length (rest y1)) (length (rest x)));
          [|discriminate].
        apply IHn in Hy1 as (y & Hy & Hle). exists y. split; [exact Hy|lia].
      * exists x. auto.
  - destruct (rmatch ignoreCase r1 x Some); [discriminate|]. exists x. auto.
  - destruct (xorb _ _); [|discriminate]. exists x. auto.
  - destruct (before x); [|discriminate]. exists x. auto.
  - destruct (rest x) eqn:Hrest; [|discriminate]. exists x.
    rewrite Hrest. auto.
Qed.

(** A pattern that starts with a literal character matches at least one
    character. *)
Lemma match_at_char_first ignoreCase a r pre s e :
  match_at ignoreCase (Seq (Char a) r) (Pos pre s) = Some e ->
  exists n, (length s - length (rest e))%nat = S n.
Proof.
  unfold match_at. cbn [rmatch]. unfold step_if. cbn [rest before].
  destruct s as [|c t]; [discriminate|].
  destruct (char_eq ignoreCase a c); [|discriminate].
  intros H. apply rmatch_continues in H as (y & Hy & Hle).
  injection Hy as ->. cbn [rest] in Hle.
  exists (length t - length (rest e))%nat. cbn [length]. lia.
Qed.

(** ** sanitizeHTML leaves no tag *)

Lemma tag_free_spec (s : jsstring) : tag_free s <-> ~ has_tag s.
Proof.
  induction s as [|c t IH]; cbn [tag_free].
  - split; [|auto]. intros _ (a & b & d & H). destruct a; discriminate.
  - rewrite IH. split.
    + intros [Hhead Htail] (a & b & d & H). destruct a as [|x a].
      * injection H as -> ->. apply Hhead; [reflexivity|].
        apply in_or_app. right. left. reflexivity.
      * injection H as -> ->. apply Htail. exists a, b, d. reflexivity.
    + intros Hfree. split.
      * intros -> Hin. apply in_split in Hin as (b & d & ->).
        apply Hfree. exists [], b, d. reflexivity.
      * intros (a & b & d & ->). apply Hfree. exists (c :: a), b, d.
        reflexivity.
Qed.

Lemma tag_free_sublist (l1 l2 : jsstring) :
  l1 `sublist_of` l2 -> tag_free l2 -> tag_free l1.
Proof.
  induction 1 as [|x l1 l2 Hsub IH|x l1 l2 Hsub IH]; cbn [tag_free].
  - auto.
  - intros [Hhead Htail]. split; [|auto].
    intros Hx Hin. apply (Hhead Hx).
    apply list_elem_of_In. apply list_elem_of_In in Hin.
    eapply elem_of_sublist; eassumption.
  - intros [_ Htail]. auto.
Qed.

Lemma first_occurrence (x : N) (l : list N) :
  In x l -> exists a b, l = a ++ x :: b /\ ~ In x a.
Proof.
  induction l as [|y l IH]; [intros []|].
  intros Hin. destruct (N.eq_dec y x) as [->|Hne].
  - exists [], l. auto.
  - destruct Hin as [Heq|Hin]; [contradiction|].
    destruct (IH Hin) as (a & b & -> & Hfirst).
    exists (y :: a), b. split; [reflexivity|].
    intros [Heq|Hin']; [contradiction|auto].
Qed.

(** Where [any_tag] does not match at a ["<"], no [">"] follows. *)
Lemma any_tag_miss pre t :
  match_at false SecurityUtils.any_tag (Pos pre (ch "<" :: t)) = None ->
  ~ In (ch ">") t.
Proof.
  intros Hmiss Hin. apply first_occurrence in Hin as (a & b & -> & Hfirst).
  revert Hmiss. unfold match_at, SecurityUtils.any_tag. cbn [seq].
  apply rmatch_char_then. exists (ch "<"), (a ++ ch ">" :: b).
  repeat split.
  change (rmatch false (Seq (Star (Class true [CChar (ch ">")]))
                          (Char (ch ">")))
            (Pos (ch "<" :: pre) (a ++ ch ">" :: b)) Some)
    with (repeat_matcher (step_if (in_class false true [CChar (ch ">")]))
            (fun y => rmatch false (Char (ch ">")) y Some)
            (length (a ++ ch ">" :: b))
            (Pos (ch "<" :: pre) (a ++ ch ">" :: b))).
  apply repeat_step_if; [lia|]. exists a, (ch ">" :: b).
  repeat split; [|discriminate].
  clear -Hfirst. induction a as [|c a IH]; [reflexivity|].
  cbn [forallb]. rewrite IH by (intros H; apply Hfirst; right; exact H).
  unfold in_class. cbn [existsb in_item char_eq].
  destruct (N.eqb_spec (ch ">") c) as [Heq|_]; [|reflexivity].
  exfalso. apply Hfirst. left. symmetry. exact Heq.
Qed.

(** Removing every match of [any_tag] leaves a string without tags. *)
Lemma replace_any_tag_free s : forall pre skip,
  tag_free (replace_scan false SecurityUtils.any_tag [] pre s skip).
Proof.
  induction s as [|c t IH]; intros pre skip.
  - cbn [replace_scan]. destruct skip; [|exact I].
    destruct (match_at _ _ _); exact I.
  - cbn [replace_scan]. destruct skip as [|n]; [|apply IH].
    destruct (match_at _ _ _) as [e|] eqn:Hmatch.
    + destruct (match_at_char_first _ _ _ _ _ _ Hmatch) as [n ->].
      apply IH.
    + cbn [tag_free]. split; [|apply IH].
      intros -> Hin. apply (any_tag_miss pre t Hmatch).
      apply list_elem_of_In. apply list_elem_of_In in Hin.
      eapply elem_of_sublist; [exact Hin|]. apply replace_scan_deletes.
Qed.

Lemma strip_tags_tag_free (s : jsstring) : tag_free (strip_tags s).
Proof. apply replace_any_tag_free. Qed.

(** X3: the result of [sanitizeHTML] holds no tag: no ["<"] in it has a
    [">"] anywhere after it. *)
Theorem sanitizeHTML_no_tag (input : jsstring) :
  ~ has_tag (SecurityUtils.sanitizeHTML input).
Proof.
  apply tag_free_spec. unfold SecurityUtils.sanitizeHTML.
  eapply tag_free_sublist; [apply replace_all_deletes|].
  eapply tag_free_sublist; [apply replace_all_deletes|].
  apply replace_any_tag_free.
Qed.

(** X4: [sanitizeHTML] only deletes: its result is the input with some
    characters left out, in the same order, and so is never longer. *)
Theorem sanitizeHTML_only_deletes (input : jsstring) :
  SecurityUtils.sanitizeHTML input `sublist_of` input
  /\ (length (SecurityUtils.sanitizeHTML input) <= length input)%nat.
Proof.
  assert (Hsub : SecurityUtils.sanitizeHTML input `sublist_of` input).
  { unfold SecurityUtils.sanitizeHTML.
    repeat (etransitivity; [apply replace_all_deletes|]). reflexivity. }
  split; [exact Hsub|]. apply sublist_length. exact Hsub.
Qed.

(** ** sanitizeFileName, again *)

Lemma sanitizeFileName_collapse (filename : jsstring) :
  SecurityUtils.sanitizeFileName filename
  = collapse_dots (List.map replace_unsafe filename).
Proof.
  unfold SecurityUtils.sanitizeFileName, replace_all, SecurityUtils.unsafe_char.
  change (js "_") with [ch "_"]. rewrite replace_scan_class.
  change [ch "_"] with (js "_").
  apply (replace_scan_dot_dot (length (List.map replace_unsafe filename))).
  fold replace_unsafe. lia.
Qed.

Lemma replace_unsafe_safe (c : N) : file_name_char (replace_unsafe c) = true.
Proof.
  unfold replace_unsafe. destruct (in_class _ _ _ c) eqn:Hc; [reflexivity|].
  apply unsafe_char_complement. exact Hc.
Qed.

Lemma replace_unsafe_id (c : N) :
  file_name_char c = true -> replace_unsafe c = c.
Proof.
  unfold replace_unsafe, in_class, file_name_char.
  cbn [existsb in_item char_eq andb]. rewrite !orb_false_r.
  rewrite (N.eqb_sym (ch ".") c), (N.eqb_sym (ch "-") c).
  destruct (between (ch "a") (ch "z") c), (between (ch "A") (ch "Z") c),
    (between (ch "0") (ch "9") c), (c =? ch "."), (c =? ch "-");
    cbn; try reflexivity.
  intros H. apply N.eqb_eq in H. congruence.
Qed.

Lemma collapse_dots_id n : forall s,
  (length s <= n)%nat -> ~ has_substring (js "..") s -> collapse_dots s = s.
Proof.
  induction n as [|n IH]; intros [|c [|d t]] Hlen Hfree;
    cbn [length] in Hlen; try lia; try reflexivity.
  rewrite collapse_dots_step.
  destruct (N.eqb_spec (ch ".") c) as [<-|Hc]; cbn [andb].
  - destruct (N.eqb_spec (ch ".") d) as [<-|Hd].
    + exfalso. apply Hfree. exists [], t. reflexivity.
    + f_equal. apply IH; [cbn [length]; lia|].
      intros (a & b & H). apply Hfree. exists (ch "." :: a), b.
      cbn [app]. rewrite H. reflexivity.
  - f_equal. apply IH; [cbn [length]; lia|].
    intros (a & b & H). apply Hfree. exists (c :: a), b.
    cbn [app]. rewrite H. reflexivity.
Qed.

(** The names [sanitizeFileName] produces are safe. *)
Lemma collapse_replace_unsafe (s : jsstring) :
  Forall (fun c => file_name_char c = true)
    (collapse_dots (List.map replace_unsafe s))
  /\ ~ has_substring (js "..") (collapse_dots (List.map replace_unsafe s)).
Proof.
  split.
  - apply (collapse_dots_chars _ (length (List.map replace_unsafe s)));
      [lia|reflexivity|].
    apply Forall_map_of. induction s; constructor;
      [apply replace_unsafe_safe|assumption].
  - intros (a & b & H).
    exact (collapse_dots_no_pair _ _ a b (Nat.le_refl _) H).
Qed.

Lemma sanitizeFileName_keeps (filename : jsstring) :
  Forall (fun c => file_name_char c = true) filename ->
  ~ has_substring (js "..") filename ->
  SecurityUtils.sanitizeFileName filename = filename.
Proof.
  intros Hsafe Hfree. rewrite sanitizeFileName_collapse.
  assert (Hmap : List.map replace_unsafe filename = filename).
  { clear Hfree. induction Hsafe as [|c l Hc _ IH]; [reflexivity|].
    cbn [List.map]. rewrite (replace_unsafe_id c Hc), IH. reflexivity. }
  rewrite Hmap. apply (collapse_dots_id (length filename)); [lia|exact Hfree].
Qed.

(** X5: the names [sanitizeFileName] leaves as they are are exactly the
    names made of ASCII letters, digits, ['.'], ['-'] and ['_'] that hold
    no [".."]. *)
Theorem sanitizeFileName_fixed_points (filename : jsstring) :
  SecurityUtils.sanitizeFileName filename = filename
  <-> Forall (fun c => file_name_char c = true) filename
      /\ ~ has_substring (js "..") filename.
Proof.
  split.
  - intros Hfix. rewrite <- Hfix, sanitizeFileName_collapse.
    apply collapse_replace_unsafe.
  - intros [Hsafe Hfree]. apply sanitizeFileName_keeps; assumption.
Qed.

Lemma collapse_dots_length n : forall s,
  (length s <= n)%nat -> (length (collapse_dots s) <= length s)%nat.
Proof.
  induction n as [|n IH]; intros [|c [|d t]] Hlen;
    cbn [length] in Hlen; try lia; try (cbn; lia).
  rewrite collapse_dots_step.
  destruct ((ch "." =? c) && (ch "." =? d)); cbn [length].
  - specialize (IH t). lia.
  - specialize (IH (d :: t)). cbn [length] in IH. lia.
Qed.

(** X6: [sanitizeFileName] is idempotent, and its result is never longer
    than its input. *)
Theorem sanitizeFileName_idempotent (filename : jsstring) :
  SecurityUtils.sanitizeFileName (SecurityUtils.sanitizeFileName filename)
  = SecurityUtils.sanitizeFileName filename
  /\ (length (SecurityUtils.sanitizeFileName filename) <= length filename)%nat.
Proof.
  split.
  - apply sanitizeFileName_keeps; rewrite sanitizeFileName_collapse;
      apply collapse_replace_unsafe.
  - rewrite sanitizeFileName_collapse.
    rewrite <- (length_map replace_unsafe filename).
    apply (collapse_dots_length (length (List.map replace_unsafe filename))).
    lia.
Qed.

(** ** trim and validateLength *)

Lemma trimStart_white (ws s : jsstring) :
  white ws -> trimStart (ws ++ s) = trimStart s.
Proof.
  induction 1 as [|c ws Hc _ IH]; [reflexivity|].
  cbn [app trimStart]. rewrite Hc. exact IH.
Qed.

Lemma white_rev (ws : jsstring) : white ws -> white (rev ws).
Proof.
  induction 1 as [|c ws Hc Hws IH]; [constructor|].
  cbn [rev]. apply Forall_app. split; [exact IH|]. repeat constructor.
  exact Hc.
Qed.

Lemma trimEnd_white (s ws : jsstring) :
  white ws -> trimEnd (s ++ ws) = trimEnd s.
Proof.
  intros Hws. unfold trimEnd. rewrite rev_app_distr.
  rewrite trimStart_white by (apply white_rev; exact Hws). reflexivity.
Qed.

Lemma trim_white_end (s ws : jsstring) :
  white ws -> trim (s ++ ws) = trim s.
Proof.
  intros Hws. unfold trim. induction s as [|c t IH].
  - cbn [app]. rewrite <- (app_nil_r ws), trimStart_white by exact Hws.
    reflexivity.
  - cbn [app trimStart]. destruct (is_space c); [exact IH|].
    apply (trimEnd_white (c :: t)). exact Hws.
Qed.

(** [trim] drops white space around a string, whatever there is of it. *)
Lemma trim_padding (before after s : jsstring) :
  white before -> white after -> trim (before ++ s ++ after) = trim s.
Proof.
  intros Hb Ha. rewrite app_assoc, trim_white_end by exact Ha.
  unfold trim. rewrite trimStart_white by exact Hb. reflexivity.
Qed.

(** X7: [validateLength] does not count white space around the input:
    padding the input with white space on either side changes nothing. *)
Theorem validateLength_ignores_padding (before after input : jsstring)
    (min max : Z) :
  white before -> white after ->
  SecurityUtils.validateLength (before ++ input ++ after) min max
  = SecurityUtils.validateLength input min max.
Proof.
  intros Hb Ha. unfold SecurityUtils.validateLength.
  rewrite trim_padding by assumption. reflexivity.
Qed.

Lemma validateLength_ignores_padding_witness :
  SecurityUtils.validateLength (js "  " ++ js "ab" ++ js " ") 2 50
  = SecurityUtils.validateLength (js "ab") 2 50.
Proof.
  apply validateLength_ignores_padding; repeat constructor.
Defined.

(** ** checkRateLimit as a sliding window *)

Lemma last_cons_default {A} (l : list A) : forall t lo,
  List.last (t :: l) lo = List.last l t.
Proof.
  induction l as [|x l IH]; intros t lo; [reflexivity|].
  change (List.last (t :: x :: l) lo) with (List.last (x :: l) lo).
  rewrite (IH x lo), (IH x t). reflexivity.
Qed.

Section SlidingWindow.

Variables (key : jsstring) (maxAttempts windowMs : Z).

Lemma in_window_app now l1 l2 :
  in_window windowMs now (l1 ++ l2)
  = in_window windowMs now l1 ++ in_window windowMs now l2.
Proof. unfold in_window. induction l1 as [|t l1 IH]; [reflexivity|].
  cbn [app List.filter]. destruct (_ <? _)%Z; cbn [app]; rewrite IH;
    reflexivity.
Qed.

(** What has left the window stays out of it as the clock advances. *)
Lemma in_window_later t now l :
  (t <= now)%Z ->
  in_window windowMs now (in_window windowMs t l) = in_window windowMs now l.
Proof.
  intros Hle. unfold in_window. induction l as [|x l IH]; [reflexivity|].
  cbn [List.filter].
  destruct (Z.ltb_spec (t - x) windowMs) as [Ht|Ht]; cbn [List.filter].
  - rewrite IH. reflexivity.
  - destruct (Z.ltb_spec (now - x) windowMs); [lia|]. exact IH.
Qed.

Lemma checkRateLimit_answer now st :
  fst (SecurityUtils.checkRateLimit key maxAttempts windowMs now st)
  = (Z.of_nat (length (in_window windowMs now (SecurityUtils.getItem st key)))
     <? maxAttempts)%Z.
Proof.
  unfold SecurityUtils.checkRateLimit, in_window, jslength.
  set (n := Z.of_nat _).
  destruct (Z.geb_spec n maxAttempts);
    cbn [fst]; symmetry; [apply Z.ltb_ge|apply Z.ltb_lt]; lia.
Qed.

Lemma tracks_step lo t st hist :
  (lo <= t)%Z -> tracks key windowMs lo st hist ->
  let (answer, st') :=
    SecurityUtils.checkRateLimit key maxAttempts windowMs t st in
  tracks key windowMs t st' (if answer then hist ++ [t] else hist).
Proof.
  intros Hlo Htracks. unfold SecurityUtils.checkRateLimit.
  destruct (_ >=? _)%Z.
  - intros now Hnow. apply Htracks. lia.
  - intros now Hnow. rewrite getItem_insert.
    fold (in_window windowMs t (SecurityUtils.getItem st key)).
    rewrite !in_window_app, in_window_later by exact Hnow.
    rewrite Htracks by lia. reflexivity.
Qed.

Lemma tracks_calls times : forall lo st hist,
  nondecreasing (lo :: times) -> tracks key windowMs lo st hist ->
  let (answers, st') :=
    rate_limit_calls key maxAttempts windowMs times st in
  tracks key windowMs (List.last times lo) st' (hist ++ granted times answers).
Proof.
  induction times as [|t times IH]; intros lo st hist Hmono Htracks.
  - cbn [rate_limit_calls granted List.last]. rewrite app_nil_r. exact Htracks.
  - cbn [rate_limit_calls].
    destruct Hmono as [Hlo Hmono].
    pose proof (tracks_step lo t st hist Hlo Htracks) as Hstep.
    destruct (SecurityUtils.checkRateLimit key maxAttempts windowMs t st)
      as [answer st1].
    specialize (IH t st1 _ Hmono Hstep).
    destruct (rate_limit_calls key maxAttempts windowMs times st1)
      as [answers st2].
    cbn [granted].
    rewrite last_cons_default.
    destruct answer; [rewrite <- app_assoc in IH|]; exact IH.
Qed.

End SlidingWindow.

Lemma nondecreasing_app_last (l : list Z) : forall lo now,
  nondecreasing (lo :: l ++ [now]) ->
  nondecreasing (lo :: l) /\ (List.last l lo <= now)%Z.
Proof.
  induction l as [|x l IH]; intros lo now Hmono.
  - cbn in Hmono |- *. tauto.
  - destruct Hmono as [Hlo Hmono]. apply IH in Hmono as [Hmono Hlast].
    rewrite last_cons_default. split; [split; assumption|exact Hlast].
Qed.

(** X8: [checkRateLimit] is a sliding-window limiter.  Starting with
    nothing stored under the key and with a clock that never runs
    backwards, a call is granted exactly when fewer than [maxAttempts] of
    the calls granted before it are less than [windowMs] old. *)
Theorem checkRateLimit_sliding_window (key : jsstring)
    (maxAttempts windowMs : Z) (earlier : list Z) (now : Z)
    (st : SecurityUtils.Storage) :
  st !! key = None ->
  nondecreasing (earlier ++ [now]) ->
  let (answers, st') :=
    rate_limit_calls key maxAttempts windowMs earlier st in
  fst (SecurityUtils.checkRateLimit key maxAttempts windowMs now st')
  = (Z.of_nat (length (in_window windowMs now (granted earlier answers)))
     <? maxAttempts)%Z.
Proof.
  intros Hnone Hmono.
  assert (Hstart : forall lo, tracks key windowMs lo st []).
  { intros lo t _. unfold SecurityUtils.getItem. rewrite Hnone. reflexivity. }
  assert (Hlo : nondecreasing (hd now earlier :: earlier ++ [now])).
  { destruct earlier as [|t l]; [cbn; lia|]. cbn [hd].
    split; [lia|exact Hmono]. }
  apply nondecreasing_app_last in Hlo as [Hlo Hlast].
  pose proof (tracks_calls key maxAttempts windowMs earlier
                (hd now earlier) st [] Hlo (Hstart _)) as Htracks.
  destruct (rate_limit_calls key maxAttempts windowMs earlier st)
    as [answers st'].
  rewrite checkRateLimit_answer, (Htracks now Hlast). reflexivity.
Qed.

Lemma checkRateLimit_sliding_window_witness :
  let (answers, st') :=
    rate_limit_calls (js "login") 2 1000 [0; 10; 20; 1005]%Z ∅ in
  fst (SecurityUtils.checkRateLimit (js "login") 2 1000 1015 st')
  = (Z.of_nat (length (in_window 1000 1015 (granted [0; 10; 20; 1005]%Z
                                              answers)))
     <? 2)%Z.
Proof.
  apply (checkRateLimit_sliding_window (js "login") 2 1000
           [0; 10; 20; 1005]%Z 1015 ∅).
  - apply lookup_empty.
  - cbn. lia.
Defined.


(** ** createPoll: what it changes and what it stores *)

Lemma filter_from_length {A} (f : A -> Z -> list A -> bool) self l :
  forall index,
    (length (filter_from f self index l) <= length l)%nat.
Proof.
  induction l as [|x l IH]; intros index; [reflexivity|].
  cbn [filter_from]. destruct (f x index self); cbn [length];
    specialize (IH (index + 1)%Z); lia.
Qed.

Lemma valid_options_length (formData : FormData) :
  (length (valid_options formData) <= length (supplied_options formData))%nat.
Proof.
  unfold valid_options, filter_indexed.
  etransitivity; [apply filter_from_length|].
  rewrite length_map. apply filter_length_le.
Qed.

Lemma strip_tags_deletes (x : jsstring) : strip_tags x `sublist_of` x.
Proof.
  unfold strip_tags.
  etransitivity; [apply replace_all_deletes|]. apply replace_all_deletes.
Qed.

Lemma existsb_false_Forall {A} (f : A -> bool) (l : list A) :
  existsb f l = false -> Forall (fun x => f x = false) l.
Proof.
  induction l as [|x l IH]; cbn [existsb]; [constructor|].
  intros H. apply orb_false_elim in H as [Hx Hl]. constructor; auto.
Qed.

(** Every way [createPoll] can end: refused with nothing changed but the
    record of an identity lookup and possibly of a failed insert, or
    accepted with the row built from the trimmed, de-duplicated and
    tag-stripped fields. *)
Lemma createPoll_outcome (formData : FormData) (env : Env) (w : World) :
  (fst (createPoll formData env w) <> Ok
   /\ polls (snd (createPoll formData env w)) = polls w
   /\ votes (snd (createPoll formData env w)) = votes w
   /\ revalidated (snd (createPoll formData env w)) = revalidated w)
  \/ (exists u question,
        session_user env = Some u
        /\ get formData (js "question") = Some question
        /\ (length (trim question) <= 500)%nat
        /\ (2 <= length (valid_options formData))%nat
        /\ (length (supplied_options formData) <= 10)%nat
        /\ Forall (fun opt => (jslength opt >? 200)%Z = false)
             (valid_options formData)
        /\ createPoll formData env w =
             (Ok, created env w u (strip_tags (trim question))
                    (List.map strip_tags (valid_options formData)))).
Proof.
  unfold createPoll. cbv zeta.
  fold (supplied_options formData). fold (valid_options formData).
  destruct (get formData (js "question")) as [question|];
    [|left; cbn; repeat split; discriminate].
  destruct (negb (truthy question) || (jslength (trim question) =? 0)%Z);
    [left; cbn; repeat split; discriminate|].
  destruct (Z.gtb_spec (jslength (trim question)) 500) as [|Hq];
    [left; cbn; repeat split; discriminate|].
  destruct (jslength (supplied_options formData) <? 2)%Z;
    [left; cbn; repeat split; discriminate|].
  destruct (Z.gtb_spec (jslength (supplied_options formData)) 10) as [|Hmax];
    [left; cbn; repeat split; discriminate|].
  destruct (Z.ltb_spec (jslength (valid_options formData)) 2) as [|Hmin];
    [left; cbn; repeat split; discriminate|].
  destruct (existsb (fun opt => (jslength opt >? 200)%Z)
              (valid_options formData)) eqn:Hlong;
    [left; cbn; repeat split; discriminate|].
  unfold bind, auth_getUser, polls_insert, table_request, revalidatePath, ret.
  destruct (session_error env);
    [left; cbn; repeat split; discriminate|].
  destruct (session_user env) as [u|];
    [|left; cbn; repeat split; discriminate].
  destruct (failure env _);
    [left; cbn; repeat split; discriminate|].
  right. exists u, question. unfold jslength in Hq, Hmax, Hmin.
  repeat split; try lia.
  - apply existsb_false_Forall. exact Hlong.
  - unfold created. cbn. rewrite <- app_assoc. reflexivity.
Qed.

(** X10: unless it answers without error, [createPoll] leaves both tables
    and the invalidated paths as they were. *)
Theorem createPoll_refusal_changes_nothing (formData : FormData)
    (env : Env) (w : World) :
  fst (createPoll formData env w) <> Ok ->
  polls (snd (createPoll formData env w)) = polls w
  /\ votes (snd (createPoll formData env w)) = votes w
  /\ revalidated (snd (createPoll formData env w)) = revalidated w.
Proof.
  intros Hrefused.
  destruct (createPoll_outcome formData env w)
    as [(_ & H)|(u & q & _ & _ & _ & _ & _ & _ & Hok)]; [exact H|].
  rewrite Hok in Hrefused. contradiction.
Qed.

Lemma createPoll_refusal_changes_nothing_witness :
  polls (snd (createPoll sample_form anonymous_env bob_world)) = [bob_poll]
  /\ votes (snd (createPoll sample_form anonymous_env bob_world)) = []
  /\ revalidated (snd (createPoll sample_form anonymous_env bob_world)) = [].
Proof.
  apply (createPoll_refusal_changes_nothing sample_form anonymous_env
           bob_world).
  vm_compute. discriminate.
Defined.

(** X11: whenever [createPoll] answers without error it has added exactly
    one row, with the id the backend assigned and the caller as owner; the
    row holds 2 to 10 options of at most 200 characters each and a question
    of at most 500 characters, and none of these texts holds a tag. *)
Theorem createPoll_row_invariant (formData : FormData)
    (env : Env) (w : World) :
  fst (createPoll formData env w) = Ok ->
  exists u row,
    session_user env = Some u
    /\ polls (snd (createPoll formData env w)) = polls w ++ [row]
    /\ poll_id row = fresh_poll_id env
    /\ poll_user_id row = user_id_of u
    /\ (2 <= length (poll_options row) <= 10)%nat
    /\ Forall (fun opt => (length opt <= 200)%nat /\ ~ has_tag opt)
         (poll_options row)
    /\ (length (poll_question row) <= 500)%nat
    /\ ~ has_tag (poll_question row).
Proof.
  intros Hok.
  destruct (createPoll_outcome formData env w)
    as [(Hno & _)|(u & q & Hu & _ & Hq & Hmin & Hmax & Hshort & Hrun)];
    [contradiction|].
  rewrite Hrun. cbn [snd created polls].
  exists u. eexists. split; [exact Hu|]. split; [reflexivity|].
  cbn [poll_id poll_user_id poll_options poll_question].
  pose proof (valid_options_length formData) as Hlen.
  repeat split; try (rewrite length_map; lia).
  - apply Forall_map_of. revert Hshort. apply Forall_weaken.
    intros opt Hopt. split.
    + pose proof (sublist_length _ _ (strip_tags_deletes opt)) as Hle.
      unfold jslength in Hopt. rewrite Z.gtb_ltb in Hopt.
      apply Z.ltb_ge in Hopt. lia.
    + apply tag_free_spec, strip_tags_tag_free.
  - pose proof (sublist_length _ _ (strip_tags_deletes (trim q))). lia.
  - apply tag_free_spec, strip_tags_tag_free.
Qed.

Lemma createPoll_row_invariant_witness :
  exists u row,
    session_user alice_env = Some u
    /\ polls (snd (createPoll sample_form alice_env bob_world))
       = polls bob_world ++ [row]
    /\ poll_id row = fresh_poll_id alice_env
    /\ poll_user_id row = user_id_of u
    /\ (2 <= length (poll_options row) <= 10)%nat
    /\ Forall (fun opt => (length opt <= 200)%nat /\ ~ has_tag opt)
         (poll_options row)
    /\ (length (poll_question row) <= 500)%nat
    /\ ~ has_tag (poll_question row).
Proof.
  apply (createPoll_row_invariant sample_form alice_env bob_world).
  vm_compute. reflexivity.
Defined.

(** ** Without a resolved identity *)

Lemma createPoll_unauthenticated (formData : FormData) (env : Env)
    (w : World) :
  session_user env = None ->
  fst (createPoll formData env w) <> Ok
  /\ (sent (snd (createPoll formData env w)) = sent w
      \/ sent (snd (createPoll formData env w)) = sent w ++ [AuthGetUser]).
Proof.
  intros Hnone. unfold createPoll. cbv zeta.
  fold (supplied_options formData). fold (valid_options formData).
  destruct (get formData (js "question")) as [question|];
    [|cbn; split; [discriminate|auto]].
  destruct (negb (truthy question) || (jslength (trim question) =? 0)%Z);
    [cbn; split; [discriminate|auto]|].
  destruct (jslength (trim question) >? 500)%Z;
    [cbn; split; [discriminate|auto]|].
  destruct (jslength (supplied_options formData) <? 2)%Z;
    [cbn; split; [discriminate|auto]|].
  destruct (jslength (supplied_options formData) >? 10)%Z;
    [cbn; split; [discriminate|auto]|].
  destruct (jslength (valid_options formData) <? 2)%Z;
    [cbn; split; [discriminate|auto]|].
  destruct (existsb (fun opt => (jslength opt >? 200)%Z)
              (valid_options formData));
    [cbn; split; [discriminate|auto]|].
  unfold bind, auth_getUser, ret. rewrite Hnone.
  destruct (session_error env); cbn; split; try discriminate; auto.
Qed.

Lemma updatePoll_unauthenticated (pollId : jsstring) (formData : FormData)
    (env : Env) (w : World) :
  session_user env = None ->
  fst (updatePoll pollId formData env w) <> Ok
  /\ polls (snd (updatePoll pollId formData env w)) = polls w
  /\ (sent (snd (updatePoll pollId formData env w)) = sent w
      \/ sent (snd (updatePoll pollId formData env w))
         = sent w ++ [AuthGetUser]).
Proof.
  intros Hnone. unfold updatePoll. cbv zeta.
  destruct (get formData (js "question")) as [question|];
    [|cbn; repeat split; [discriminate|auto]].
  destruct (negb (truthy question) || _);
    [cbn; repeat split; [discriminate|auto]|].
  unfold bind, auth_getUser, ret. rewrite Hnone.
  destruct (session_error env); cbn; repeat split; try discriminate; auto.
Qed.

(** X12: without a resolved identity nobody creates, changes or deletes a
    poll: [createPoll], [updatePoll] and [deletePoll] answer with an error,
    leave the table of polls as it was, and send the backend nothing but,
    at most, the identity lookup. *)
Theorem unauthenticated_cannot_change_polls (env : Env) (w : World) :
  session_user env = None ->
  (forall formData,
      fst (createPoll formData env w) <> Ok
      /\ polls (snd (createPoll formData env w)) = polls w
      /\ (sent (snd (createPoll formData env w)) = sent w
          \/ sent (snd (createPoll formData env w)) = sent w ++ [AuthGetUser]))
  /\ (forall pollId formData,
        fst (updatePoll pollId formData env w) <> Ok
        /\ polls (snd (updatePoll pollId formData env w)) = polls w
        /\ (sent (snd (updatePoll pollId formData env w)) = sent w
            \/ sent (snd (updatePoll pollId formData env w))
               = sent w ++ [AuthGetUser]))
  /\ (forall id,
        deletePoll id env w =
          (Err AuthenticationRequired
             (js "You must be logged in to delete a poll."),
           log AuthGetUser w)).
Proof.
  intros Hnone. split; [|split].
  - intros formData.
    destruct (createPoll_unauthenticated formData env w Hnone) as [Hr Hsent].
    destruct (createPoll_outcome formData env w)
      as [(_ & Hpolls & _)|(u & q & _ & _ & _ & _ & _ & _ & Hok)].
    + auto.
    + rewrite Hok in Hr. contradiction.
  - intros pollId formData. apply updatePoll_unauthenticated. exact Hnone.
  - intros id. unfold deletePoll, bind, auth_getUser. cbn [fst].
    rewrite Hnone. reflexivity.
Qed.

Lemma unauthenticated_cannot_change_polls_witness :
  polls (snd (createPoll sample_form anonymous_env bob_world)) = [bob_poll]
  /\ polls (snd (updatePoll (js "p1") sample_form anonymous_env bob_world))
     = [bob_poll]
  /\ polls (snd (deletePoll (js "p1") anonymous_env bob_world)) = [bob_poll].
Proof.
  destruct (unauthenticated_cannot_change_polls anonymous_env bob_world
              eq_refl) as (Hcreate & Hupdate & Hdelete).
  split; [apply Hcreate|]. split; [apply (Hupdate (js "p1"))|].
  rewrite Hdelete. reflexivity.
Defined.

(** ** deletePoll by the owner, and whose rows it can remove *)

Lemma passes_id (id : jsstring) (row : PollRow) :
  passes [(col_id, id)] row = jsstring_eqb (poll_id row) id.
Proof. unfold passes. cbn. apply andb_true_r. Qed.

(** A fetched owner is the owner of the one row with the id. *)
Lemma fetched_owner_single id env w owner :
  fetched_owner id env w = Some owner ->
  exists row,
    List.filter (passes [(col_id, id)]) (polls w) = [row]
    /\ poll_user_id row = owner.
Proof.
  unfold fetched_owner, polls_select_user_id_single.
  destruct (failure env _); [discriminate|].
  destruct (List.filter _ (polls w)) as [|row [|row' l]]; try discriminate.
  cbn [fst]. intros H. injection H as <-. exists row. auto.
Qed.

(** Past its checks [deletePoll] is the lookup, the fetch and one delete. *)
Lemma deletePoll_accepted (id : jsstring) (u : User) (env : Env)
    (w : World) :
  session_user env = Some u ->
  fetched_owner id env w = Some (user_id_of u) ->
  deletePoll id env w =
    let w1 := log (PollsSelectSingle [(col_id, id)]) (log AuthGetUser w) in
    match failure env (PollsDelete [(col_id, id)]) with
    | Some message => (Err BackendError message, log (PollsDelete [(col_id, id)]) w1)
    | None =>
        (Ok, snd (revalidatePath (js "/polls") env
                    (set_polls
                       (List.filter
                          (fun row => negb (passes [(col_id, id)] row))
                          (polls w))
                       (log (PollsDelete [(col_id, id)]) w1))))
    end.
Proof.
  intros Huser Hfetch.
  rewrite <- (fetched_owner_log id env w AuthGetUser) in Hfetch.
  unfold fetched_owner in Hfetch.
  unfold deletePoll, bind, auth_getUser. cbn [fst]. rewrite Huser.
  destruct (polls_select_user_id_single [(col_id, id)] env (log AuthGetUser w))
    as [poll w1] eqn:Hsel.
  assert (Hw1 : w1 = log (PollsSelectSingle [(col_id, id)]) (log AuthGetUser w)).
  { unfold polls_select_user_id_single in Hsel.
    destruct (failure env _); [congruence|].
    destruct (List.filter _ _) as [|row [|row' l]]; congruence. }
  cbn [fst] in Hfetch. subst poll w1. rewrite jsstring_eqb_refl. cbn [negb].
  unfold polls_delete, table_request.
  destruct (failure env (PollsDelete [(col_id, id)])); reflexivity.
Qed.

(** X13: when the caller owns the fetched poll and the backend accepts the
    delete, [deletePoll] answers without error, has sent exactly one
    delete, filtered by the poll id, after the identity lookup and the
    fetch, has removed the rows with that id and kept every other row, and
    has invalidated ["/polls"]. *)
Theorem deletePoll_by_owner (id : jsstring) (u : User) (env : Env)
    (w : World) :
  session_user env = Some u ->
  fetched_owner id env w = Some (user_id_of u) ->
  failure env (PollsDelete [(col_id, id)]) = None ->
  deletePoll id env w =
    (Ok, {| polls := List.filter
                       (fun row => negb (jsstring_eqb (poll_id row) id))
                       (polls w);
            votes := votes w;
            sent := sent w ++ [ AuthGetUser;
                                PollsSelectSingle [(col_id, id)];
                                PollsDelete [(col_id, id)] ];
            revalidated := revalidated w ++ [js "/polls"] |}).
Proof.
  intros Huser Hfetch Hok.
  rewrite (deletePoll_accepted id u env w Huser Hfetch). cbv zeta.
  rewrite Hok. unfold revalidatePath, set_polls, log.
  cbn [snd polls votes sent revalidated].
  rewrite <- !app_assoc. cbn [app]. do 2 f_equal.
  apply filter_ext. intros row. rewrite passes_id. reflexivity.
Qed.

Lemma deletePoll_by_owner_witness :
  deletePoll (js "p2") alice_env shared_world =
    (Ok, {| polls := [bob_poll]; votes := [];
            sent := [ AuthGetUser; PollsSelectSingle [(col_id, js "p2")];
                      PollsDelete [(col_id, js "p2")] ];
            revalidated := [js "/polls"] |}).
Proof.
  exact (deletePoll_by_owner (js "p2") alice alice_env shared_world
           eq_refl eq_refl eq_refl).
Defined.

(** A caller who does not own the fetched poll changes nothing. *)
Lemma deletePoll_not_owner_run (id : jsstring) (u : User) (env : Env)
    (w : World) :
  session_user env = Some u ->
  (fetched_owner id env w = None
   \/ exists owner, fetched_owner id env w = Some owner
                    /\ owner <> user_id_of u) ->
  polls (snd (deletePoll id env w)) = polls w.
Proof.
  intros Huser Hfetch.
  rewrite <- (fetched_owner_log id env w AuthGetUser) in Hfetch.
  unfold fetched_owner in Hfetch.
  unfold deletePoll, bind, auth_getUser. cbn [fst]. rewrite Huser.
  destruct (polls_select_user_id_single [(col_id, id)] env (log AuthGetUser w))
    as [poll w1] eqn:Hsel.
  assert (Hw1 : polls w1 = polls w).
  { unfold polls_select_user_id_single in Hsel.
    destruct (failure env _); [injection Hsel as _ <-; reflexivity|].
    destruct (List.filter _ _) as [|row [|row' l]];
      injection Hsel as _ <-; reflexivity. }
  cbn [fst] in Hfetch.
  destruct Hfetch as [-> | (owner & -> & Hne)]; [exact Hw1|].
  rewrite jsstring_eqb_neq by assumption. exact Hw1.
Qed.

(** X14: whatever the input, a row that [deletePoll] removes has the given
    id and is owned by the caller. *)
Theorem deletePoll_removes_only_own (id : jsstring) (env : Env) (w : World)
    (row : PollRow) :
  In row (polls w) ->
  ~ In row (polls (snd (deletePoll id env w))) ->
  exists u, session_user env = Some u
            /\ poll_user_id row = user_id_of u
            /\ poll_id row = id.
Proof.
  intros Hin Hgone.
  destruct (session_user env) as [u|] eqn:Huser.
  2:{ exfalso. apply Hgone. unfold deletePoll, bind, auth_getUser.
      cbn [fst]. rewrite Huser. exact Hin. }
  destruct (fetched_owner id env w) as [owner|] eqn:Hfetch.
  2:{ exfalso. apply Hgone.
      pose proof (deletePoll_not_owner_run id u env w Huser (or_introl Hfetch))
        as Hrun.
      rewrite Hrun. exact Hin. }
  destruct (list_eq_dec owner (user_id_of u)) as [->|Hother].
  2:{ exfalso. apply Hgone.
      pose proof (deletePoll_not_owner_run id u env w Huser
                    (or_intror (ex_intro _ owner (conj Hfetch Hother))))
        as Hrun.
      rewrite Hrun. exact Hin. }
  rewrite (deletePoll_accepted id u env w Huser Hfetch) in Hgone.
  cbv zeta in Hgone.
  destruct (failure env (PollsDelete [(col_id, id)])).
  { exfalso. apply Hgone. exact Hin. }
  cbn [snd revalidatePath set_polls polls] in Hgone.
  assert (Hpass : passes [(col_id, id)] row = true).
  { destruct (passes [(col_id, id)] row) eqn:Hp; [reflexivity|].
    exfalso. apply Hgone. apply filter_In. rewrite Hp. auto. }
  apply fetched_owner_single in Hfetch as (row0 & Hsingle & Howner).
  assert (Hrow : In row (List.filter (passes [(col_id, id)]) (polls w)))
    by (apply filter_In; auto).
  rewrite Hsingle in Hrow. destruct Hrow as [<-|[]].
  exists u. repeat split; [exact Howner|].
  rewrite passes_id in Hpass. apply jsstring_eqb_eq. exact Hpass.
Qed.

Lemma deletePoll_removes_only_own_witness :
  exists u, session_user alice_env = Some u
            /\ poll_user_id alice_poll = user_id_of u
            /\ poll_id alice_poll = js "p2".
Proof.
  apply (deletePoll_removes_only_own (js "p2") alice_env shared_world
           alice_poll).
  - right. left. reflexivity.
  - vm_compute. intros [H|[]]. discriminate H.
Defined.

(** ** updatePoll: which rows it can change, and how *)

(** X15: whatever the input, [updatePoll] leaves the votes alone and keeps
    every row of [polls] in place with its id and its owner; a row that
    comes out changed has the given id and is owned by the caller. *)
Theorem updatePoll_changes_only_own (pollId : jsstring)
    (formData : FormData) (env : Env) (w : World) :
  votes (snd (updatePoll pollId formData env w)) = votes w
  /\ Forall2
       (fun old new =>
          poll_id new = poll_id old
          /\ poll_user_id new = poll_user_id old
          /\ (new = old
              \/ exists u, session_user env = Some u
                           /\ poll_user_id old = user_id_of u
                           /\ poll_id old = pollId))
       (polls w) (polls (snd (updatePoll pollId formData env w))).
Proof.
  assert (Hsame : forall rows : list PollRow,
            Forall2
              (fun old new =>
                 poll_id new = poll_id old
                 /\ poll_user_id new = poll_user_id old
                 /\ (new = old
                     \/ exists u, session_user env = Some u
                                  /\ poll_user_id old = user_id_of u
                                  /\ poll_id old = pollId))
              rows rows).
  { induction rows; constructor; auto. }
  unfold updatePoll. cbv zeta.
  destruct (get formData (js "question")) as [question|];
    [|cbn; auto].
  destruct (negb (truthy question) || _); [cbn; auto|].
  unfold bind, auth_getUser, ret, polls_update, table_request.
  destruct (session_error env); [cbn; auto|].
  destruct (session_user env) as [u|]; [|cbn; auto].
  destruct (failure env _); [cbn; auto|].
  cbn [snd set_polls log polls votes]. split; [reflexivity|].
  induction (polls w) as [|row rows IH]; [constructor|].
  cbn [List.map]. constructor; [|exact IH].
  destruct (passes _ row) eqn:Hpass; [|auto].
  cbn [poll_id poll_user_id]. repeat split. right. exists u.
  unfold passes in Hpass. cbn [forallb fst snd column_value] in Hpass.
  apply andb_prop in Hpass as [Hid Hrest].
  apply andb_prop in Hrest as [Howner _].
  apply jsstring_eqb_eq in Hid, Howner. auto.
Qed.

(** X16: when the caller owns a poll with the given id, the form passes the
    two checks and the backend accepts the update, [updatePoll] answers
    without error and the row then holds the question and the non-empty
    option entries exactly as supplied, under the same id and owner. *)
Theorem updatePoll_by_owner (pollId : jsstring) (formData : FormData)
    (question : jsstring) (u : User) (env : Env) (w : World)
    (row : PollRow) :
  get formData (js "question") = Some question ->
  question <> [] ->
  (2 <= length (supplied_options formData))%nat ->
  session_user env = Some u ->
  session_error env = None ->
  failure env (PollsUpdate question (supplied_options formData)
                 [(col_id, pollId); (col_user_id, user_id_of u)]) = None ->
  In row (polls w) ->
  poll_id row = pollId ->
  poll_user_id row = user_id_of u ->
  fst (updatePoll pollId formData env w) = Ok
  /\ In {| poll_id := pollId; poll_user_id := user_id_of u;
           poll_question := question;
           poll_options := supplied_options formData |}
        (polls (snd (updatePoll pollId formData env w))).
Proof.
  intros Hq Hne Hopts Huser Herr Hok Hin Hid Howner.
  rewrite (updatePoll_accepted pollId formData question u env w)
    by assumption.
  unfold polls_update, table_request. rewrite Hok.
  cbn [fst snd set_polls log polls]. split; [reflexivity|].
  apply in_map_iff. exists row. split; [|exact Hin].
  unfold passes. cbn [forallb fst snd column_value].
  rewrite Hid, Howner, !jsstring_eqb_refl. reflexivity.
Qed.

Lemma updatePoll_by_owner_witness :
  fst (updatePoll (js "p2") markup_form alice_env shared_world) = Ok
  /\ In {| poll_id := js "p2"; poll_user_id := js "alice";
           poll_question := js " <b>Red</b> or blue? ";
           poll_options := [js "red "; js "red "] |}
        (polls (snd (updatePoll (js "p2") markup_form alice_env
                       shared_world))).
Proof.
  refine (updatePoll_by_owner (js "p2") markup_form
            (js " <b>Red</b> or blue? ") alice alice_env shared_world
            alice_poll eq_refl _ _ eq_refl eq_refl eq_refl _ eq_refl eq_refl).
  - vm_compute. discriminate.
  - vm_compute. lia.
  - right. left. reflexivity.
Defined.

(** ** submitVote: no limit on votes *)

(** X17: [submitVote] does not look for an earlier vote: two calls for the
    same poll under the same session, both accepted by the backend, add two
    vote rows carrying the same voter id, and leave the polls alone. *)
Theorem submitVote_twice (pollId : jsstring) (first second : Z)
    (env : Env) (w : World) :
  failure env (VotesInsert pollId (option_map user_id_of (session_user env))
                 first) = None ->
  failure env (VotesInsert pollId (option_map user_id_of (session_user env))
                 second) = None ->
  let w1 := snd (submitVote pollId first env w) in
  let (r, w2) := submitVote pollId second env w1 in
  r = Ok
  /\ votes w2 =
       votes w ++ [ {| vote_poll_id := pollId;
                       vote_user_id :=
                         option_map user_id_of (session_user env);
                       vote_option_index := first |};
                    {| vote_poll_id := pollId;
                       vote_user_id :=
                         option_map user_id_of (session_user env);
                       vote_option_index := second |} ]
  /\ polls w2 = polls w.
Proof.
  intros Hfirst Hsecond.
  unfold submitVote, bind, auth_getUser, votes_insert, table_request.
  cbn [fst]. rewrite Hfirst. cbn [snd ret]. rewrite Hsecond.
  cbn. rewrite <- app_assoc. repeat split; reflexivity.
Qed.

Lemma submitVote_twice_witness :
  let w1 := snd (submitVote (js "p1") 0 alice_env bob_world) in
  let (r, w2) := submitVote (js "p1") 0 alice_env w1 in
  r = Ok
  /\ votes w2 =
       [ {| vote_poll_id := js "p1"; vote_user_id := Some (js "alice");
            vote_option_index := 0 |};
         {| vote_poll_id := js "p1"; vote_user_id := Some (js "alice");
            vote_option_index := 0 |} ]
  /\ polls w2 = [bob_poll].
Proof.
  exact (submitVote_twice (js "p1") 0 0 alice_env bob_world eq_refl eq_refl).
Defined.

(** ** The reads *)

(** X18: [getUserPolls] only ever returns polls of the resolved identity:
    with no identity it answers ["Not authenticated"] and no poll; with one,
    every poll it returns is a row owned by that identity, and when it
    reports no error it returns every such row (the backend's ordering
    being a rearrangement of the rows it is given). *)
Theorem getUserPolls_own_polls (env : Env) (renv : ReadEnv)
    (rows : list PollRow) :
  (forall l, Permutation (newest_first renv l) l) ->
  (session_user env = None ->
   getUserPolls env renv rows = ([], Some (js "Not authenticated")))
  /\ (forall row,
        In row (fst (getUserPolls env renv rows)) ->
        In row rows
        /\ exists u, session_user env = Some u
                     /\ poll_user_id row = user_id_of u)
  /\ (forall u row,
        session_user env = Some u ->
        snd (getUserPolls env renv rows) = None ->
        In row rows -> poll_user_id row = user_id_of u ->
        In row (fst (getUserPolls env renv rows))).
Proof.
  intros Hperm. unfold getUserPolls, polls_select_newest_first.
  destruct (session_user env) as [u|].
  2:{ split; [reflexivity|]. split; [intros row []|discriminate]. }
  split; [discriminate|].
  destruct (select_failure renv _).
  { cbn. split; [intros row []|discriminate]. }
  cbn [fst snd].
  assert (Hmember : forall row,
            In row (newest_first renv
                      (List.filter (passes [(col_user_id, user_id_of u)]) rows))
            <-> In row rows /\ poll_user_id row = user_id_of u).
  { intros row. split.
    - intros Hin. apply (Permutation_in _ (Hperm _)) in Hin.
      apply filter_In in Hin as [Hin Hpass]. split; [exact Hin|].
      unfold passes in Hpass. cbn in Hpass. rewrite andb_true_r in Hpass.
      apply jsstring_eqb_eq. exact Hpass.
    - intros [Hin Howner].
      apply (Permutation_in _ (Permutation_sym (Hperm _))).
      apply filter_In. split; [exact Hin|].
      unfold passes. cbn. rewrite andb_true_r, Howner.
      apply jsstring_eqb_refl. }
  split.
  - intros row Hin. apply Hmember in Hin as [Hin Howner]. eauto.
  - intros u' row Hu _ Hin Howner. injection Hu as <-.
    apply Hmember. auto.
Qed.

Lemma getUserPolls_own_polls_witness :
  fst (getUserPolls alice_env sample_reads (polls shared_world))
  = [alice_poll]
  /\ In alice_poll
       (fst (getUserPolls alice_env sample_reads (polls shared_world))).
Proof.
  split; [reflexivity|].
  refine (proj2 (proj2 (getUserPolls_own_polls alice_env sample_reads
                          (polls shared_world) _))
            alice alice_poll eq_refl eq_refl _ eq_refl).
  - intros l. symmetry. apply Permutation_rev.
  - right. left. reflexivity.
Defined.

(** X19: a poll that [getPollById] returns is a row of the table with the
    id asked for, and comes with no error; when it returns no poll it
    reports an error.  No identity is involved. *)
Theorem getPollById_sound (id : jsstring) (renv : ReadEnv)
    (rows : list PollRow) :
  (forall row,
      fst (getPollById id renv rows) = Some row ->
      snd (getPollById id renv rows) = None
      /\ In row rows /\ poll_id row = id)
  /\ (fst (getPollById id renv rows) = None ->
      snd (getPollById id renv rows) <> None).
Proof.
  unfold getPollById, polls_select_single.
  destruct (select_failure renv _); [cbn; split; discriminate|].
  destruct (List.filter (passes [(col_id, id)]) rows)
    as [|row0 [|row1 l]] eqn:Hfilter; cbn; try (split; discriminate).
  split; [|discriminate].
  intros row H. injection H as <-. split; [reflexivity|].
  assert (Hin : In row0 (List.filter (passes [(col_id, id)]) rows))
    by (rewrite Hfilter; left; reflexivity).
  apply filter_In in Hin as [Hin Hpass]. split; [exact Hin|].
  rewrite passes_id in Hpass. apply jsstring_eqb_eq. exact Hpass.
Qed.

(** Among rows with pairwise distinct ids the filter on an id yields the
    one row that has it. *)
Lemma filter_unique_id (rows : list PollRow) (row : PollRow) :
  NoDup (List.map poll_id rows) -> In row rows ->
  List.filter (passes [(col_id, poll_id row)]) rows = [row].
Proof.
  induction rows as [|r rows IH]; [intros _ []|].
  cbn [List.map]. intros Hnodup Hin.
  apply NoDup_cons in Hnodup as [Hfresh Hnodup].
  cbn [List.filter]. rewrite passes_id. destruct Hin as [->|Hin].
  - rewrite jsstring_eqb_refl. f_equal.
    clear IH Hnodup. induction rows as [|r rows IH]; [reflexivity|].
    cbn [List.filter]. rewrite passes_id.
    rewrite jsstring_eqb_neq.
    + apply IH. intros H. apply Hfresh. right. exact H.
    + intros Heq. apply Hfresh. rewrite <- Heq. left.
  - rewrite jsstring_eqb_neq; [apply IH; assumption|].
    intros Heq. apply Hfresh. rewrite Heq.
    apply list_elem_of_In, in_map, Hin.
Qed.

(** X20: when the ids in the table are pairwise distinct and the select
    does not fail, [getPollById] finds every row by its id. *)
Theorem getPollById_finds (renv : ReadEnv) (rows : list PollRow)
    (row : PollRow) :
  NoDup (List.map poll_id rows) ->
  select_failure renv [(col_id, poll_id row)] = None ->
  In row rows ->
  getPollById (poll_id row) renv rows = (Some row, None).
Proof.
  intros Hnodup Hok Hin. unfold getPollById, polls_select_single.
  rewrite Hok, (filter_unique_id rows row Hnodup Hin). reflexivity.
Qed.

Lemma getPollById_finds_witness :
  getPollById (js "p2") sample_reads (polls shared_world)
  = (Some alice_poll, None).
Proof.
  apply (getPollById_finds sample_reads (polls shared_world) alice_poll).
  - vm_compute. apply NoDup_pair. discriminate.
  - reflexivity.
  - right. left. reflexivity.
Defined.

(** ** Writes followed by reads *)

(** X21: a poll [createPoll] has just created can be fetched by the id the
    backend gave it, provided that id was not in use, the ids in the table
    were pairwise distinct, and the select does not fail; the fetched row is
    owned by the caller. *)
Theorem createPoll_then_getPollById (formData : FormData) (env : Env)
    (renv : ReadEnv) (w : World) :
  fst (createPoll formData env w) = Ok ->
  NoDup (List.map poll_id (polls w)) ->
  ~ In (fresh_poll_id env) (List.map poll_id (polls w)) ->
  select_failure renv [(col_id, fresh_poll_id env)] = None ->
  exists u row,
    session_user env = Some u
    /\ getPollById (fresh_poll_id env) renv
         (polls (snd (createPoll formData env w))) = (Some row, None)
    /\ poll_user_id row = user_id_of u
    /\ In row (polls (snd (createPoll formData env w))).
Proof.
  intros Hok Hnodup Hfresh Hselect.
  destruct (createPoll_outcome formData env w)
    as [(Hno & _)|(u & q & Hu & _ & _ & _ & _ & _ & Hrun)];
    [contradiction|].
  rewrite Hrun. cbn [snd created polls].
  set (row := {| poll_id := fresh_poll_id env;
                 poll_user_id := user_id_of u;
                 poll_question := strip_tags (trim q);
                 poll_options := List.map strip_tags (valid_options formData) |}).
  assert (Hin : In row (polls w ++ [row]))
    by (apply in_or_app; right; left; reflexivity).
  exists u, row. split; [exact Hu|]. split; [|split; [reflexivity|exact Hin]].
  unfold getPollById, polls_select_single. rewrite Hselect.
  change (List.filter (passes [(col_id, fresh_poll_id env)]) (polls w ++ [row]))
    with (List.filter (passes [(col_id, poll_id row)]) (polls w ++ [row])).
  rewrite (filter_unique_id (polls w ++ [row]) row); [reflexivity| |exact Hin].
  rewrite map_app. apply NoDup_app. split; [exact Hnodup|]. split.
  - intros x Hx Hx'. apply list_elem_of_singleton in Hx'. subst x.
    apply Hfresh. apply list_elem_of_In. exact Hx.
  - apply NoDup_singleton.
Qed.

Lemma createPoll_then_getPollById_witness :
  exists u row,
    session_user alice_env = Some u
    /\ getPollById (fresh_poll_id alice_env) sample_reads
         (polls (snd (createPoll sample_form alice_env bob_world)))
       = (Some row, None)
    /\ poll_user_id row = user_id_of u
    /\ In row (polls (snd (createPoll sample_form alice_env bob_world))).
Proof.
  apply (createPoll_then_getPollById sample_form alice_env sample_reads
           bob_world).
  - vm_compute. reflexivity.
  - vm_compute. apply NoDup_singleton.
  - vm_compute. intros [H|[]]. discriminate H.
  - reflexivity.
Defined.

(** A [deletePoll] that answers without error has removed the rows with the
    id. *)
Lemma deletePoll_ok (id : jsstring) (env : Env) (w : World) :
  fst (deletePoll id env w) = Ok ->
  polls (snd (deletePoll id env w))
  = List.filter (fun row => negb (passes [(col_id, id)] row)) (polls w).
Proof.
  unfold deletePoll, bind, auth_getUser, polls_select_user_id_single,
    polls_delete, table_request, revalidatePath, ret.
  cbn [fst].
  destruct (session_user env) as [u|]; [|discriminate].
  destruct (failure env (PollsSelectSingle _)); [discriminate|].
  cbn [polls log].
  destruct (List.filter _ (polls w)) as [|row [|row' l]]; try discriminate.
  destruct (negb _); [discriminate|].
  destruct (failure env (PollsDelete _)); [discriminate|].
  intros _. reflexivity.
Qed.

(** X22: after a [deletePoll] that answered without error, [getPollById]
    for the same id returns no poll. *)
Theorem deletePoll_then_getPollById (id : jsstring) (env : Env)
    (renv : ReadEnv) (w : World) :
  fst (deletePoll id env w) = Ok ->
  fst (getPollById id renv (polls (snd (deletePoll id env w)))) = None.
Proof.
  intros Hok. rewrite (deletePoll_ok id env w Hok).
  unfold getPollById, polls_select_single.
  destruct (select_failure renv _); [reflexivity|].
  replace (List.filter (passes [(col_id, id)])
             (List.filter (fun row => negb (passes [(col_id, id)] row))
                (polls w)))
    with (@nil PollRow); [reflexivity|].
  induction (polls w) as [|row rows IH]; [reflexivity|].
  cbn [List.filter]. destruct (passes [(col_id, id)] row) eqn:Hpass;
    cbn [negb]; [exact IH|].
  cbn [List.filter]. rewrite Hpass. exact IH.
Qed.

Lemma deletePoll_then_getPollById_witness :
  fst (getPollById (js "p2") sample_reads
         (polls (snd (deletePoll (js "p2") alice_env shared_world)))) = None.
Proof.
  apply (deletePoll_then_getPollById (js "p2") alice_env sample_reads
           shared_world).
  vm_compute. reflexivity.
Defined.

(** ** The options createPoll keeps *)

Lemma dedupe_after_spec (l : list jsstring) : forall earlier,
  NoDup (dedupe_after earlier l)
  /\ forall x, x ∈ dedupe_after earlier l -> (x ∉ earlier) /\ (x ∈ l).
Proof.
  induction l as [|x t IH]; intros earlier; cbn [dedupe_after].
  - split; [constructor|]. intros y Hy. inversion Hy.
  - destruct (IH (earlier ++ [x])) as [Hnodup Hmem].
    destruct (existsb (jsstring_eqb x) earlier) eqn:Hseen.
    + split; [exact Hnodup|]. intros y Hy. apply Hmem in Hy as [Hnew Hin].
      split; [|right; exact Hin].
      intros Hold. apply Hnew. apply elem_of_app. left. exact Hold.
    + split.
      * apply NoDup_cons. split; [|exact Hnodup].
        intros Hin. apply Hmem in Hin as [Hnew _]. apply Hnew.
        apply elem_of_app. right. left.
      * intros y Hy. apply elem_of_cons in Hy as [->|Hy].
        -- split; [|left].
           intros Hold. apply existsb_jsstring_eqb in Hold. congruence.
        -- apply Hmem in Hy as [Hnew Hin]. split; [|right; exact Hin].
           intros Hold. apply Hnew. apply elem_of_app. left. exact Hold.
Qed.

(** X23: the options [createPoll] keeps for its checks are pairwise
    distinct, and each is the non-empty trimmed text of a value supplied
    under ["options"]. *)
Theorem valid_options_distinct (formData : FormData) :
  NoDup (valid_options formData)
  /\ Forall (fun opt =>
               opt <> []
               /\ exists raw, In raw (getAll formData (js "options"))
                              /\ opt = trim raw)
       (valid_options formData).
Proof.
  rewrite valid_options_normalize. unfold normalize_options.
  destruct (dedupe_after_spec
              (List.filter truthy
                 (List.map trim (getAll formData (js "options")))) [])
    as [Hnodup Hmem].
  split; [exact Hnodup|].
  apply Forall_forall. intros opt Hopt.
  apply Hmem in Hopt as [_ Hin]. apply list_elem_of_In in Hin.
  apply filter_In in Hin as [Hin Hne]. split.
  - intros ->. discriminate Hne.
  - apply in_map_iff in Hin as (raw & <- & Hraw). exists raw. auto.
Qed.

(** ** Backend failures *)

(** X24: a table request the backend fails is reported with the backend's
    own message and changes no table: for the insert of [submitVote], for
    the delete of [deletePoll] by the owner (which then invalidates no
    path), and for the update of [updatePoll] past its checks. *)
Theorem backend_failure_reported (env : Env) (w : World)
    (message : jsstring) :
  (forall pollId optionIndex,
      failure env (VotesInsert pollId
                     (option_map user_id_of (session_user env)) optionIndex)
      = Some message ->
      let (r, w') := submitVote pollId optionIndex env w in
      error r = Some message /\ votes w' = votes w /\ polls w' = polls w)
  /\ (forall id u,
        session_user env = Some u ->
        fetched_owner id env w = Some (user_id_of u) ->
        failure env (PollsDelete [(col_id, id)]) = Some message ->
        let (r, w') := deletePoll id env w in
        error r = Some message /\ polls w' = polls w
        /\ revalidated w' = revalidated w)
  /\ (forall pollId formData question u,
        get formData (js "question") = Some question ->
        question <> [] ->
        (2 <= length (supplied_options formData))%nat ->
        session_user env = Some u ->
        session_error env = None ->
        failure env (PollsUpdate question (supplied_options formData)
                       [(col_id, pollId); (col_user_id, user_id_of u)])
        = Some message ->
        let (r, w') := updatePoll pollId formData env w in
        error r = Some message /\ polls w' = polls w).
Proof.
  split; [|split].
  - intros pollId optionIndex Hfail.
    unfold submitVote, bind, auth_getUser, votes_insert, table_request.
    cbn [fst]. rewrite Hfail. cbn. auto.
  - intros id u Huser Hfetch Hfail.
    rewrite (deletePoll_accepted id u env w Huser Hfetch). cbv zeta.
    rewrite Hfail. cbn. auto.
  - intros pollId formData question u Hq Hne Hopts Huser Herr Hfail.
    rewrite (updatePoll_accepted pollId formData question u env w)
      by assumption.
    unfold polls_update, table_request. rewrite Hfail. cbn. auto.
Qed.

Lemma backend_failure_reported_witness :
  let (r, w') := submitVote (js "p1") 1 failing_env bob_world in
  error r = Some (js "permission denied")
  /\ votes w' = votes bob_world /\ polls w' = polls bob_world.
Proof.
  exact (proj1 (backend_failure_reported failing_env bob_world
                  (js "permission denied")) (js "p1") 1%Z eq_refl).
Defined.

(** ** Text without markup *)

Lemma char_eq_lt (c : N) : c <> ch "<" -> char_eq true (ch "<") c = false.
Proof.
  intros Hne. unfold char_eq, canonicalize.
  change (between 97 122 (ch "<")) with false. cbv iota.
  unfold between. apply N.eqb_neq.
  destruct (N.leb_spec 97 c); destruct (N.leb_spec c 122); cbn [andb];
    try congruence.
  change (ch "<") with 60. lia.
Qed.

Lemma script_block_needs_lt pre s :
  match s with c :: _ => c <> ch "<" | [] => True end ->
  match_at true SecurityUtils.script_block (Pos pre s) = None.
Proof.
  intros Hhead. unfold match_at, SecurityUtils.script_block.
  change (lit "<script")
    with (Seq (Char (ch "<")) (seq (List.map Char (js "script")))).
  cbn [seq rmatch]. unfold step_if at 1. cbn [rest before].
  destruct s as [|c t]; [reflexivity|]. rewrite (char_eq_lt c Hhead).
  reflexivity.
Qed.

Lemma any_tag_needs_lt pre s :
  match s with c :: _ => c <> ch "<" | [] => True end ->
  match_at false SecurityUtils.any_tag (Pos pre s) = None.
Proof.
  intros Hhead. unfold match_at, SecurityUtils.any_tag.
  cbn [seq rmatch]. unfold step_if at 1. cbn [rest before].
  destruct s as [|c t]; [reflexivity|].
  unfold char_eq. destruct (N.eqb_spec (ch "<") c); [congruence|reflexivity].
Qed.

(** Where a pattern can only match at a character the text does not hold,
    a global replace changes nothing. *)
Lemma replace_scan_nowhere ignoreCase r repl (a : N) s :
  (forall pre s', match s' with c :: _ => c <> a | [] => True end ->
                  match_at ignoreCase r (Pos pre s') = None) ->
  ~ In a s ->
  forall pre, replace_scan ignoreCase r repl pre s 0 = s.
Proof.
  intros Hnone. induction s as [|c t IH]; intros Hfree pre.
  - apply replace_scan_end. apply Hnone. exact I.
  - rewrite replace_scan_miss.
    + rewrite IH; [reflexivity|]. intros H. apply Hfree. right. exact H.
    + apply Hnone. intros ->. apply Hfree. left. reflexivity.
Qed.

(** X25: the tag stripping of [createPoll] changes nothing in a text that
    holds no ["<"]. *)
Theorem strip_tags_plain_text (text : jsstring) :
  ~ In (ch "<") text -> strip_tags text = text.
Proof.
  intros Hplain. unfold strip_tags, replace_all.
  rewrite (replace_scan_nowhere true SecurityUtils.script_block [] (ch "<"));
    [|intros pre s'; apply script_block_needs_lt|exact Hplain].
  apply (replace_scan_nowhere false SecurityUtils.any_tag [] (ch "<"));
    [intros pre s'; apply any_tag_needs_lt|exact Hplain].
Qed.

Lemma strip_tags_plain_text_witness :
  strip_tags (js "2 > 1, tea & coffee") = js "2 > 1, tea & coffee".
Proof.
  apply strip_tags_plain_text. vm_compute.
  intros H. repeat (destruct H as [H|H]; [discriminate H|]). exact H.
Defined.
